(** * worker.js: the transcription web worker as an event-driven state machine

    The worker is single-threaded JavaScript: a handler runs without
    interruption until it reaches an [await] of an external promise (dynamic
    import, [pipeline], [decodeAudioData], the transcriber, [fetch],
    [response.arrayBuffer]); while it is suspended there, other messages may
    be handled, and they see and change the same three globals.  The model
    keeps exactly this granularity: every function of the source is cut at its
    awaits into straight-line pieces, and the event loop resumes one piece per
    event.  What the external calls answer is chosen by the environment. *)

From stdpp Require Import base list strings pretty.
From Stdlib Require Import ZArith Ascii.

Open Scope string_scope.
Open Scope list_scope.

(** What the platform supplies and the worker only passes around or prints:
    JavaScript numbers with the two arithmetic operators and the two
    conversions to text that the source uses, and the constructor of the
    offline audio context, which either throws (with that message) or yields
    a context. *)
Record Platform := {
  number : Type;
  of_Z : Z -> number;                   (* numeric literals *)
  ndiv : number -> number -> number;    (* a / b *)
  nmul : number -> number -> number;    (* a * b *)
  num_str : number -> string;           (* ${n} inside a template literal *)
  toFixed : number -> Z -> string;      (* n.toFixed(k) *)
  newOfflineAudioContext : Z -> Z -> Z -> string + nat;
  call_of_null : string                 (* message of the TypeError of calling null *)
}.

Section Worker.

Context {P : Platform}.

Local Abbreviation num := (number P).

(** ** Values exchanged with the outside *)

(** A [Float32Array] of samples, by reference. *)
Definition Samples := nat.

Record ArrayBuffer := {
  buffer_ref : nat;
  byteLength : num
}.

Record FileData := {
  name : string;
  size : num;
  arrayBuffer : ArrayBuffer
}.

(** The platform's [AudioBuffer]; it has at least one channel, so
    [getChannelData 0] always answers. *)
Record AudioBuffer := {
  numberOfChannels : num;
  sampleRate : num;
  duration : num;
  getChannelData : nat -> Samples
}.

Record Response := {
  ok : bool;
  status : num
}.

(** The argument of [progress_callback]. *)
Record ProgressData := {
  pd_status : string;
  loaded : num;
  total : num
}.

(** The options object given to the transcriber. *)
Record TranscribeOptions := {
  chunk_length_s : Z;
  stride_length_s : Z;
  language : string;
  task : string;
  sampling_rate : num
}.

(** The messages the worker posts. *)
Inductive OutMsg :=
| MProgress (step status message : string)
| MResult (text : string) (a_duration a_sampleRate a_numberOfChannels : num)
          (f_name : string) (f_size : num)
| MError (data : string)
| MLog (data : string)
| MPong.

(** [event.data] of an incoming message: [{ type, file, url }], the last two
    present or not. *)
Record InMsg := {
  type : string;
  file : option FileData;
  url : option string
}.

(** Calls that leave the worker. *)
Inductive ExtCall :=
| CallImport (src : string)
| CallPipeline (task_name model_name : string)
| CallNewContext (channels length rate : Z)
| CallDecodeAudioData (ctx : nat) (b : ArrayBuffer)
| CallTranscriber (t : nat) (audioData : Samples) (opts : TranscribeOptions)
| CallFetch (u : string)
| CallArrayBuffer (r : Response).

(** The three stages of a run. *)
Inductive Stage := Model | Decode | Transcribe.

(** What a run does, in order: messages posted, external calls started, and
    (observation only) where a stage function is entered and how it is left:
    [Leave s None] for a return, [Leave s (Some m)] for a throw of an error
    with message [m]. *)
Inductive Act :=
| Post (m : OutMsg)
| Call (c : ExtCall)
| Enter (s : Stage)
| Leave (s : Stage) (thrown : option string).

(** How an awaited external promise settles. An error is its [message]. *)
Inductive Outcome :=
| OModule
| OTranscriber (t : nat)
| OAudio (a : AudioBuffer)
| OResult (text : string)
| OResponse (r : Response)
| OArrayBuffer (b : ArrayBuffer)
| ORejected (message : string).

(** Where a run is suspended. *)
Inductive Point :=
| AtImport (fd : FileData)
| AtPipeline (fd : FileData)
| AtDecode (fd : FileData)
| AtTranscribe (fd : FileData) (a : AudioBuffer)
| AtFetch (u : string)
| AtArrayBuffer (u : string) (r : Response)
| Done.

(** How a function of the source completes. *)
Inductive Completion (A : Type) :=
| Return (a : A)
| Throw (message : string).
Arguments Return {A} a.
Arguments Throw {A} message.

(** ** The three globals *)

Record Globals := {
  transcriber : option nat;
  audioContext : option nat;
  cancelled : bool
}.

Definition set_transcriber (t : option nat) (g : Globals) : Globals :=
  {| transcriber := t; audioContext := audioContext g; cancelled := cancelled g |}.

Definition set_audioContext (c : option nat) (g : Globals) : Globals :=
  {| transcriber := transcriber g; audioContext := c; cancelled := cancelled g |}.

Definition set_cancelled (b : bool) (g : Globals) : Globals :=
  {| transcriber := transcriber g; audioContext := audioContext g; cancelled := b |}.

(** A straight-line piece: new globals, what it did, and where the run is
    next. *)
Definition Piece : Type := Globals * list Act * Point.

Definition progress (step status message : string) : Act :=
  Post (MProgress step status message).

(** JavaScript truthiness of the two values the source tests with [!]. *)
Definition truthy_model (m : option nat) : bool :=
  match m with Some _ => true | None => false end.

Definition truthy_text (t : option string) : bool :=
  match t with
  | Some s => negb (String.eqb s "")
  | None => false
  end.

(** ** loadTransformers *)

Definition cdn_url : string :=
  "https://cdn.jsdelivr.net/npm/@xenova/transformers@2.17.2/+esm".

(** After the dynamic import settles. [None]: not an answer to an import. *)
Definition loadTransformers_resume (o : Outcome) : option (Completion unit) :=
  match o with
  | OModule => Some (Return tt)
  | ORejected e => Some (Throw ("Не удалось загрузить transformers.js: " +:+ e))
  | _ => None
  end.

(** ** initModel *)

Definition initModel_enter : list Act :=
  [ Enter Model;
    progress "model" "active" "Загрузка из CDN...";
    Call (CallImport cdn_url) ].

(** The [catch] of initModel. *)
Definition initModel_catch (e : string) : list Act * Completion (option nat) :=
  if String.eqb e "Cancelled"
  then ([Leave Model None], Return None)
  else ([Leave Model (Some e)], Throw e).

(** From the settled import to the call of [pipeline]; the third component
    is [None] while initModel awaits the pipeline. *)
Definition initModel_after_import (o : Outcome)
  : option (list Act * option (Completion (option nat))) :=
  match loadTransformers_resume o with
  | None => None
  | Some (Return _) =>
      Some ([Call (CallPipeline "automatic-speech-recognition" "Xenova/whisper-tiny")], None)
  | Some (Throw e) =>
      let '(acts, c) := initModel_catch e in Some (acts, Some c)
  end.

(** The [progress_callback] handed to [pipeline]. *)
Definition progress_callback (data : ProgressData) (g : Globals)
  : Completion (list Act) :=
  if cancelled g then Throw "Cancelled"
  else if String.eqb (pd_status data) "downloading" then
    let pct := toFixed P (nmul P (ndiv P (loaded data) (total data)) (of_Z P 100)) 1 in
    let size := toFixed P (ndiv P (ndiv P (total data) (of_Z P 1024)) (of_Z P 1024)) 1 in
    Return [progress "model" "active"
              ("Загружено: " +:+ pct +:+ "% из " +:+ size +:+ " МБ")]
  else Return [].

(** After the promise of [pipeline] settles. *)
Definition initModel_after_pipeline (o : Outcome) (g : Globals)
  : option (Globals * list Act * Completion (option nat)) :=
  match o with
  | OTranscriber t =>
      Some (set_transcriber (Some t) g,
            [ progress "model" "completed" "Модель загружена и закэширована";
              Leave Model None ],
            Return (Some t))
  | ORejected e =>
      let '(acts, c) := initModel_catch e in Some (g, acts, c)
  | _ => None
  end.

(** ** decodeAudio *)

(** Up to the await of [decodeAudioData], or to the throw of the [catch]
    when the context cannot be constructed. *)
Definition decodeAudio_enter (b : ArrayBuffer) (g : Globals)
  : Globals * list Act * option (Completion AudioBuffer) :=
  let start := [Enter Decode; progress "decode" "active" "Декодирование..."] in
  match audioContext g with
  | Some ctx => (g, start ++ [Call (CallDecodeAudioData ctx b)], None)
  | None =>
      match newOfflineAudioContext P 1 44100 44100 with
      | inr ctx =>
          (set_audioContext (Some ctx) g,
           start ++ [Call (CallNewContext 1 44100 44100);
                     Call (CallDecodeAudioData ctx b)],
           None)
      | inl e =>
          let m := "Ошибка декодирования аудио: " +:+ e in
          (g, start ++ [Call (CallNewContext 1 44100 44100); Leave Decode (Some m)],
           Some (Throw m))
      end
  end.

Definition decodeAudio_resume (o : Outcome)
  : option (list Act * Completion AudioBuffer) :=
  match o with
  | OAudio a =>
      Some ([ progress "decode" "completed"
                (num_str P (numberOfChannels a) +:+ " канал(а), " +:+
                 num_str P (sampleRate a) +:+ " Гц, " +:+
                 toFixed P (duration a) 1 +:+ " сек");
              Leave Decode None ],
            Return a)
  | ORejected e =>
      let m := "Ошибка декодирования аудио: " +:+ e in
      Some ([Leave Decode (Some m)], Throw m)
  | _ => None
  end.

(** ** transcribeAudio *)

Definition transcribeAudio_catch (e : string) : list Act * Completion (option string) :=
  if String.eqb e "Cancelled"
  then ([Leave Transcribe None], Return None)
  else let m := "Ошибка распознавания: " +:+ e in
       ([Leave Transcribe (Some m)], Throw m).

Definition transcribeAudio_enter (a : AudioBuffer) (g : Globals)
  : list Act * option (Completion (option string)) :=
  let start := [Enter Transcribe; progress "transcribe" "active" "Распознавание..."] in
  let audioData := getChannelData a 0 in
  match transcriber g with
  | Some t =>
      (start ++ [Call (CallTranscriber t audioData
                         {| chunk_length_s := 30;
                            stride_length_s := 5;
                            language := "ru";
                            task := "transcribe";
                            sampling_rate := sampleRate a |})],
       None)
  | None =>
      let '(acts, c) := transcribeAudio_catch (call_of_null P) in
      (start ++ acts, Some c)
  end.

Definition transcribeAudio_resume (o : Outcome)
  : option (list Act * Completion (option string)) :=
  match o with
  | OResult text =>
      Some ([ progress "transcribe" "completed" "Текст распознан";
              Leave Transcribe None ],
            Return (Some text))
  | ORejected e => Some (transcribeAudio_catch e)
  | _ => None
  end.

(** ** processFile *)

(** A piece preceded by what the callee did before completing. *)
Definition after (acts : list Act) (p : Piece) : Piece :=
  let '(g, acts', pt) := p in (g, acts ++ acts', pt).

(** The [catch] of processFile (and of processUrl, which has the same). *)
Definition processFile_catch (e : string) (g : Globals) : Piece :=
  (g, [Post (MError e)], Done).

(** From the completion of transcribeAudio to the end. *)
Definition processFile_after_transcribe (fd : FileData) (a : AudioBuffer)
    (c : Completion (option string)) (g : Globals) : Piece :=
  match c with
  | Throw e => processFile_catch e g
  | Return text =>
      if cancelled g || negb (truthy_text text) then (g, [], Done)
      else
        match text with
        | Some t =>
            (g, [Post (MResult t (duration a) (sampleRate a) (numberOfChannels a)
                               (name fd) (size fd))], Done)
        | None => (g, [], Done)
        end
  end.

(** From the completion of decodeAudio on. *)
Definition processFile_after_decode (fd : FileData)
    (c : Completion AudioBuffer) (g : Globals) : Piece :=
  match c with
  | Throw e => processFile_catch e g
  | Return a =>
      if cancelled g then (g, [], Done)
      else
        match transcribeAudio_enter a g with
        | (acts, None) => (g, acts, AtTranscribe fd a)
        | (acts, Some c') => after acts (processFile_after_transcribe fd a c' g)
        end
  end.

(** From the completion of initModel on. *)
Definition processFile_after_initModel (fd : FileData)
    (c : Completion (option nat)) (g : Globals) : Piece :=
  match c with
  | Throw e => processFile_catch e g
  | Return model =>
      if cancelled g || negb (truthy_model model) then (g, [], Done)
      else
        match decodeAudio_enter (arrayBuffer fd) g with
        | (g', acts, None) => (g', acts, AtDecode fd)
        | (g', acts, Some c') => after acts (processFile_after_decode fd c' g')
        end
  end.

(** Entry of processFile, up to the first await. *)
Definition processFile (fd : FileData) (g : Globals) : Piece :=
  (set_cancelled false g, initModel_enter, AtImport fd).

(** ** processUrl *)

(** [s.split('/')]: never empty. *)
Fixpoint split_slash (s : string) : list string :=
  match s with
  | EmptyString => [""]
  | String c rest =>
      if Ascii.eqb c "/"%char then "" :: split_slash rest
      else
        match split_slash rest with
        | h :: t => String c h :: t
        | [] => [String c ""]
        end
  end.

(** [url.split('/').pop() || 'audio'] *)
Definition url_file_name (u : string) : string :=
  let last_part := List.last (split_slash u) "" in
  if String.eqb last_part "" then "audio" else last_part.

Definition processUrl (u : string) (g : Globals) : Piece :=
  (set_cancelled false g,
   [progress "decode" "active" "Загрузка аудио..."; Call (CallFetch u)],
   AtFetch u).

Definition processUrl_after_fetch (u : string) (o : Outcome) (g : Globals)
  : option Piece :=
  match o with
  | OResponse r =>
      if negb (ok r)
      then Some (processFile_catch
                   ("Не удалось загрузить файл: " +:+ num_str P (status r)) g)
      else Some (g, [Call (CallArrayBuffer r)], AtArrayBuffer u r)
  | ORejected e => Some (processFile_catch e g)
  | _ => None
  end.

Definition processUrl_after_arrayBuffer (u : string) (o : Outcome) (g : Globals)
  : option Piece :=
  match o with
  | OArrayBuffer b =>
      if cancelled g then Some (g, [], Done)
      else Some (processFile {| name := url_file_name u;
                                size := byteLength b;
                                arrayBuffer := b |} g)
  | ORejected e => Some (processFile_catch e g)
  | _ => None
  end.

(** ** Resuming a suspended run *)

(** The awaited promise of a run settles with [o]; [None] when [o] is not an
    answer to what the run awaits. *)
Definition resume (pt : Point) (o : Outcome) (g : Globals) : option Piece :=
  match pt with
  | AtImport fd =>
      match initModel_after_import o with
      | None => None
      | Some (acts, None) => Some (g, acts, AtPipeline fd)
      | Some (acts, Some c) => Some (after acts (processFile_after_initModel fd c g))
      end
  | AtPipeline fd =>
      match initModel_after_pipeline o g with
      | None => None
      | Some (g', acts, c) => Some (after acts (processFile_after_initModel fd c g'))
      end
  | AtDecode fd =>
      match decodeAudio_resume o with
      | None => None
      | Some (acts, c) => Some (after acts (processFile_after_decode fd c g))
      end
  | AtTranscribe fd a =>
      match transcribeAudio_resume o with
      | None => None
      | Some (acts, c) => Some (after acts (processFile_after_transcribe fd a c g))
      end
  | AtFetch u => processUrl_after_fetch u o g
  | AtArrayBuffer u _ => processUrl_after_arrayBuffer u o g
  | Done => None
  end.

(** The library calls [progress_callback] while a run awaits [pipeline].
    A throw of the callback travels through the library and rejects the
    promise of [pipeline] with that error. *)
Definition callback (pt : Point) (data : ProgressData) (g : Globals) : option Piece :=
  match pt with
  | AtPipeline fd =>
      match progress_callback data g with
      | Return acts => Some (g, acts, AtPipeline fd)
      | Throw e => resume (AtPipeline fd) (ORejected e) g
      end
  | _ => None
  end.

(** ** The worker *)

Record Run := {
  point : Point;
  hist : list Act
}.

Record State := {
  globals : Globals;
  out : list OutMsg;      (* everything posted, in order *)
  runs : list Run         (* the processing requests, in order of arrival *)
}.

Definition posts (acts : list Act) : list OutMsg :=
  omap (fun a => match a with Post m => Some m | _ => None end) acts.

Definition spawn (p : Piece) (st : State) : State :=
  let '(g, acts, pt) := p in
  {| globals := g;
     out := out st ++ posts acts;
     runs := runs st ++ [{| point := pt; hist := acts |}] |}.

Definition advance (rid : nat) (r : Run) (p : Piece) (st : State) : State :=
  let '(g, acts, pt) := p in
  {| globals := g;
     out := out st ++ posts acts;
     runs := <[rid := {| point := pt; hist := hist r ++ acts |}]> (runs st) |}.

(** [self.onmessage]. A processing request without its payload is outside
    the model ([None]). *)
Definition onmessage (m : InMsg) (st : State) : option State :=
  if String.eqb (type m) "transcribe" then
    match file m with
    | Some fd => Some (spawn (processFile fd (globals st)) st)
    | None => None
    end
  else if String.eqb (type m) "transcribeUrl" then
    match url m with
    | Some u => Some (spawn (processUrl u (globals st)) st)
    | None => None
    end
  else if String.eqb (type m) "cancel" then
    Some {| globals := set_cancelled true (globals st);
            out := out st ++ [MLog "Обработка отменена"];
            runs := runs st |}
  else if String.eqb (type m) "ping" then
    Some {| globals := globals st; out := out st ++ [MPong]; runs := runs st |}
  else Some st.

(** [self.onerror] *)
Definition onerror (message : string) (st : State) : State :=
  {| globals := globals st; out := out st ++ [MError message]; runs := runs st |}.

(** What the environment can do to the worker. *)
Inductive Event :=
| Deliver (m : InMsg)
| Settle (rid : nat) (o : Outcome)
| Progress (rid : nat) (data : ProgressData)
| Uncaught (message : string).

(** One turn of the event loop; [None] when the event cannot happen in
    this state. *)
Definition handle (e : Event) (st : State) : option State :=
  match e with
  | Deliver m => onmessage m st
  | Settle rid o =>
      match runs st !! rid with
      | Some r =>
          match resume (point r) o (globals st) with
          | Some p => Some (advance rid r p st)
          | None => None
          end
      | None => None
      end
  | Progress rid data =>
      match runs st !! rid with
      | Some r =>
          match callback (point r) data (globals st) with
          | Some p => Some (advance rid r p st)
          | None => None
          end
      | None => None
      end
  | Uncaught message => Some (onerror message st)
  end.

Fixpoint exec (es : list Event) (st : State) : option State :=
  match es with
  | [] => Some st
  | e :: es' =>
      match handle e st with
      | Some st' => exec es' st'
      | None => None
      end
  end.

Definition initial : State :=
  {| globals := {| transcriber := None; audioContext := None; cancelled := false |};
     out := [];
     runs := [] |}.

(** The states the worker can be in. *)
Definition reachable (st : State) : Prop :=
  exists es, exec es initial = Some st.

(** ** Observations on a run and on the worker *)

(** The options the source builds for an audio buffer. *)
Definition options_for (a : AudioBuffer) : TranscribeOptions :=
  {| chunk_length_s := 30;
     stride_length_s := 5;
     language := "ru";
     task := "transcribe";
     sampling_rate := sampleRate a |}.

Definition is_result (m : OutMsg) : bool :=
  match m with MResult _ _ _ _ _ _ => true | _ => false end.

Definition is_error (m : OutMsg) : bool :=
  match m with MError _ => true | _ => false end.

Definition is_log (m : OutMsg) : bool :=
  match m with MLog _ => true | _ => false end.

(** Stage boundaries of a run, in order: [(s, true)] entering, [(s, false)]
    leaving. *)
Definition trail (h : list Act) : list (Stage * bool) :=
  omap (fun a => match a with
                 | Enter s => Some (s, true)
                 | Leave s _ => Some (s, false)
                 | _ => None
                 end) h.

Definition pipeline_order : list (Stage * bool) :=
  [ (Model, true); (Model, false);
    (Decode, true); (Decode, false);
    (Transcribe, true); (Transcribe, false) ].

(** Messages of the errors a stage threw. *)
Definition thrown (h : list Act) : list string :=
  omap (fun a => match a with Leave _ (Some m) => Some m | _ => None end) h.

(** Calls of the transcriber. *)
Definition transcriber_calls (h : list Act) : list (nat * Samples * TranscribeOptions) :=
  omap (fun a => match a with
                 | Call (CallTranscriber t d o) => Some (t, d, o)
                 | _ => None
                 end) h.

(** Data of the error messages a run posted. *)
Definition errors (h : list Act) : list string :=
  omap (fun a => match a with Post (MError m) => Some m | _ => None end) h.

(** Neither the start of a stage nor a result. *)
Definition starts_nothing (a : Act) : bool :=
  match a with
  | Enter _ => false
  | Post m => negb (is_result m)
  | _ => true
  end.

(** What remains of a history without progress messages and without the
    external calls other than the transcriber's. *)
Definition notable (a : Act) : bool :=
  match a with
  | Post (MProgress _ _ _) => false
  | Call (CallTranscriber _ _ _) => true
  | Call _ => false
  | _ => true
  end.

Definition digest (h : list Act) : list Act := List.filter notable h.

(** A message that opens a run. *)
Definition is_request (e : Event) : bool :=
  match e with
  | Deliver m => String.eqb (type m) "transcribe" || String.eqb (type m) "transcribeUrl"
  | _ => false
  end.

(** The same worker with the flag set to [b]. *)
Definition with_flag (b : bool) (st : State) : State :=
  {| globals := set_cancelled b (globals st); out := out st; runs := runs st |}.

(** Does the answer to [e] in [st] read the flag?  The places of the source:
    after initModel (reached from the settled pipeline), after decodeAudio,
    after transcribeAudio, after [response.arrayBuffer()], and the first line
    of [progress_callback]. *)
Definition at_flag_check (e : Event) (st : State) : bool :=
  match e with
  | Settle rid _ =>
      match runs st !! rid with
      | Some r =>
          match point r with
          | AtPipeline _ | AtDecode _ | AtTranscribe _ _ | AtArrayBuffer _ _ => true
          | _ => false
          end
      | None => false
      end
  | Progress _ _ => true
  | _ => false
  end.

(** From [r] to [r'] the run entered no stage and posted no result. *)
Definition grows_quietly (r r' : Run) : Prop :=
  exists extra, hist r' = hist r ++ extra /\ forallb starts_nothing extra = true.

(** Once the flag is set, the runs that exist never enter a stage nor post a
    result again, whatever happens next. *)
Definition cancellation_always_final : Prop :=
  forall es1 es2 st1 st2 rid r1 r2,
    exec es1 initial = Some st1 ->
    cancelled (globals st1) = true ->
    runs st1 !! rid = Some r1 ->
    exec es2 st1 = Some st2 ->
    runs st2 !! rid = Some r2 ->
    grows_quietly r1 r2.

(** The answer to [e] in [st] is the same, the flag itself apart, whether
    the flag is set or not. *)
Definition flag_blind (e : Event) (st : State) : Prop :=
  option_map (with_flag false) (handle e (with_flag true st))
  = option_map (with_flag false) (handle e (with_flag false st)).

(** The flag matters only in the turn that resumes a run after its awaited
    call has settled. *)
Definition flag_read_only_between_awaits : Prop :=
  forall e st, (forall rid o, e <> Settle rid o) -> flag_blind e st.

(** Neither a result, nor an error, nor a log. *)
Definition quiet_msg (m : OutMsg) : bool :=
  negb (is_result m || is_error m || is_log m).

Definition quiet_act (a : Act) : bool :=
  match a with Post m => quiet_msg m | _ => true end.

(** The turn [e] ends run [rid] through the cancellation: a flag check that
    finds the flag set, [progress_callback] finding it set, or the error
    'Cancelled' reaching the catch of initModel or of transcribeAudio. *)
Definition ends_by_cancellation (e : Event) (st : State) (rid : nat) : bool :=
  match e with
  | Settle rid' o =>
      Nat.eqb rid' rid &&
      match runs st !! rid with
      | Some r =>
          match point r, o with
          | AtPipeline _, OTranscriber _
          | AtDecode _, OAudio _
          | AtTranscribe _ _, OResult _
          | AtArrayBuffer _ _, OArrayBuffer _ => cancelled (globals st)
          | AtPipeline _, ORejected m
          | AtTranscribe _ _, ORejected m => String.eqb m "Cancelled"
          | _, _ => false
          end
      | None => false
      end
  | Progress rid' _ => Nat.eqb rid' rid && cancelled (globals st)
  | _ => false
  end.

(** The turns of the event loop, one constructor per way [handle] answers. *)
Inductive turn : Event -> State -> State -> Prop :=
| turn_transcribe m fd st :
    type m = "transcribe" -> file m = Some fd ->
    turn (Deliver m) st (spawn (processFile fd (globals st)) st)
| turn_transcribeUrl m u st :
    type m = "transcribeUrl" -> url m = Some u ->
    turn (Deliver m) st (spawn (processUrl u (globals st)) st)
| turn_cancel m st :
    type m = "cancel" ->
    turn (Deliver m) st
         {| globals := set_cancelled true (globals st);
            out := out st ++ [MLog "Обработка отменена"];
            runs := runs st |}
| turn_ping m st :
    type m = "ping" ->
    turn (Deliver m) st
         {| globals := globals st; out := out st ++ [MPong]; runs := runs st |}
| turn_ignored m st :
    type m <> "transcribe" -> type m <> "transcribeUrl" ->
    type m <> "cancel" -> type m <> "ping" ->
    turn (Deliver m) st st
| turn_settle rid o r p st :
    runs st !! rid = Some r -> resume (point r) o (globals st) = Some p ->
    turn (Settle rid o) st (advance rid r p st)
| turn_progress rid data r p st :
    runs st !! rid = Some r -> callback (point r) data (globals st) = Some p ->
    turn (Progress rid data) st (advance rid r p st)
| turn_uncaught message st :
    turn (Uncaught message) st (onerror message st).

(** A valid progress message. *)
Definition progress_ok (m : OutMsg) : Prop :=
  match m with
  | MProgress step status message =>
      step ∈ ["model"; "decode"; "transcribe"] /\
      status ∈ ["active"; "completed"] /\
      message <> ""
  | _ => True
  end.

(** The digest of a run at each point of its life. *)
Definition model_done : list Act := [Enter Model; Leave Model None].

Definition decode_done : list Act :=
  model_done ++ [Enter Decode; Leave Decode None].

Definition transcriber_called (t : nat) (a : AudioBuffer) : list Act :=
  decode_done ++
  [Enter Transcribe; Call (CallTranscriber t (getChannelData a 0) (options_for a))].

Inductive finished : list Act -> Prop :=
| fin_silent : finished []
| fin_failed e : finished [Post (MError e)]
| fin_model_stop : finished model_done
| fin_model_failed e :
    finished [Enter Model; Leave Model (Some e); Post (MError e)]
| fin_decode_stop : finished decode_done
| fin_decode_failed e :
    finished (model_done ++ [Enter Decode; Leave Decode (Some e); Post (MError e)])
| fin_nocall_stop :
    finished (decode_done ++ [Enter Transcribe; Leave Transcribe None])
| fin_nocall_failed e :
    finished (decode_done ++
              [Enter Transcribe; Leave Transcribe (Some e); Post (MError e)])
| fin_transcribe_stop t a :
    finished (transcriber_called t a ++ [Leave Transcribe None])
| fin_transcribe_failed t a e :
    finished (transcriber_called t a ++
              [Leave Transcribe (Some e); Post (MError e)])
| fin_result t a text fd :
    finished (transcriber_called t a ++
              [Leave Transcribe None;
               Post (MResult text (duration a) (sampleRate a) (numberOfChannels a)
                             (name fd) (size fd))]).

Definition expected (pt : Point) (d : list Act) : Prop :=
  match pt with
  | AtFetch _ | AtArrayBuffer _ _ => d = []
  | AtImport _ | AtPipeline _ => d = [Enter Model]
  | AtDecode _ => d = model_done ++ [Enter Decode]
  | AtTranscribe _ a => exists t, d = transcriber_called t a
  | Done => finished d
  end.

Definition run_ok (r : Run) : Prop := expected (point r) (digest (hist r)).

(** ** Further observations *)

(** [parts.join('/')] *)
Definition join_slash (parts : list string) : string := String.concat "/" parts.

Fixpoint has_slash (s : string) : bool :=
  match s with
  | EmptyString => false
  | String c rest => Ascii.eqb c "/"%char || has_slash rest
  end.

(** How the globals can change: the flag is written, a model is stored, or
    the audio context is created where there was none. *)
Inductive evolves : Globals -> Globals -> Prop :=
| ev_same g : evolves g g
| ev_flag b g g' : evolves (set_cancelled b g) g' -> evolves g g'
| ev_model t g g' : evolves (set_transcriber (Some t) g) g' -> evolves g g'
| ev_context c g g' :
    audioContext g = None ->
    newOfflineAudioContext P 1 44100 44100 = inr c ->
    evolves (set_audioContext (Some c) g) g' -> evolves g g'.

(** A property [G] of the globals and a property [R] of each run (given the
    globals and the run's number) hold; the worker has at least [n0] runs. *)
Definition swept (G : Globals -> Prop)
    (R : Globals -> nat -> Point -> list Act -> Prop) (n0 : nat) (st : State) : Prop :=
  (n0 <= length (runs st))%nat /\
  G (globals st) /\
  forall rid r, runs st !! rid = Some r -> R (globals st) rid (point r) (hist r).

(** The history run [rid] had in [st], empty when there was no such run. *)
Definition past (st : State) (rid : nat) : list Act :=
  match runs st !! rid with
  | Some r => hist r
  | None => []
  end.

(** The result messages a run posted. *)
Definition results (h : list Act) : list OutMsg :=
  omap (fun a => match a with
                 | Post m => if is_result m then Some m else None
                 | _ => None
                 end) h.

(** The points reached only with a loaded model. *)
Definition needs_model (pt : Point) : bool :=
  match pt with
  | AtDecode _ | AtTranscribe _ _ => true
  | _ => false
  end.

(** A run past the model stage finds the transcriber stored, and a run that
    entered the transcribe stage has called it. *)
Definition model_ready (g : Globals) (rid : nat) (pt : Point) (h : list Act) : Prop :=
  (needs_model pt = true -> transcriber g <> None) /\
  (In (Enter Transcribe) h -> transcriber_calls h <> []).

(** An action that neither constructs an audio context nor decodes with a
    context other than [c]. *)
Definition reuses_context (c : nat) (a : Act) : bool :=
  match a with
  | Call (CallNewContext _ _ _) => false
  | Call (CallDecodeAudioData ctx _) => Nat.eqb ctx c
  | _ => true
  end.

(** Since [st0], run [rid] did only actions that satisfy [ok]. *)
Definition since (ok : Act -> bool) (st0 : State)
    (g : Globals) (rid : nat) (pt : Point) (h : list Act) : Prop :=
  exists extra, h = past st0 rid ++ extra /\ forallb ok extra = true.

(** What a run may do on a platform whose context constructor throws [e]:
    no result, no transcription, and decodeAudio is left only by the throw
    of the prefixed message. *)
Definition without_context (e : string) (a : Act) : bool :=
  match a with
  | Post m => negb (is_result m)
  | Enter Transcribe => false
  | Leave Decode None => false
  | Leave Decode (Some m) => String.eqb m ("Ошибка декодирования аудио: " +:+ e)
  | _ => true
  end.

Definition stuck_before_decode (e : string)
    (g : Globals) (rid : nat) (pt : Point) (h : list Act) : Prop :=
  needs_model pt = false /\ forallb (without_context e) h = true.

(** Step and status of the progress messages of a run, in order. *)
Definition progress_trail (h : list Act) : list (string * string) :=
  omap (fun a => match a with
                 | Post (MProgress step status _) => Some (step, status)
                 | _ => None
                 end) h.

(** The progress of a whole run: the download notice of processUrl when the
    run came from a URL, "model active" once and then once more for each of
    the [k] download reports, and the five remaining notices. *)
Definition download_notice (from_url : bool) : list (string * string) :=
  if from_url then [("decode", "active")] else [].

Definition progress_script (from_url : bool) (k : nat) : list (string * string) :=
  download_notice from_url ++ replicate (S k) ("model", "active") ++
  [ ("model", "completed");
    ("decode", "active"); ("decode", "completed");
    ("transcribe", "active"); ("transcribe", "completed") ].

(** Did the run begin in processUrl?  Only processUrl calls fetch, first
    thing. *)
Definition came_from_url (h : list Act) : bool :=
  existsb (fun a => match a with Call (CallFetch _) => true | _ => false end) h.

(** How far into the script a run is at each point; [b] tells whether the
    run came from a URL. *)
Definition progress_at (b : bool) (pt : Point) (t : list (string * string)) : Prop :=
  match pt with
  | AtFetch _ | AtArrayBuffer _ _ => b = true /\ t = [("decode", "active")]
  | AtImport _ => t = download_notice b ++ [("model", "active")]
  | AtPipeline _ =>
      exists k, t = download_notice b ++ replicate (S k) ("model", "active")
  | AtDecode _ =>
      exists k, t = download_notice b ++ replicate (S k) ("model", "active") ++
                    [("model", "completed"); ("decode", "active")]
  | AtTranscribe _ _ =>
      exists k, t = download_notice b ++ replicate (S k) ("model", "active") ++
                    [("model", "completed"); ("decode", "active");
                     ("decode", "completed"); ("transcribe", "active")]
  | Done => exists k, t `prefix_of` progress_script b k
  end.

Definition progress_on_script (g : Globals) (rid : nat) (pt : Point) (h : list Act) : Prop :=
  progress_at (came_from_url h) pt (progress_trail h).

Definition is_pong (m : OutMsg) : bool :=
  match m with MPong => true | _ => false end.

(** Messages only a run posts: neither the pong nor the log. *)
Definition from_run (m : OutMsg) : bool := negb (is_pong m || is_log m).

(** How many of the events are incoming messages of type [ty]. *)
Definition deliveries (ty : string) (es : list Event) : nat :=
  length (List.filter (fun e => match e with
                                | Deliver m => String.eqb (type m) ty
                                | _ => false
                                end) es).

Definition count_out (p : OutMsg -> bool) (st : State) : nat :=
  length (List.filter p (out st)).

(** ** A request that nothing disturbs *)

(** The note of decodeAudio about a decoded buffer. *)
Definition decoded_note (a : AudioBuffer) : string :=
  num_str P (numberOfChannels a) +:+ " канал(а), " +:+
  num_str P (sampleRate a) +:+ " Гц, " +:+
  toFixed P (duration a) 1 +:+ " сек".

(** A file request as run number [k], every external call answered well and
    nothing else in between. *)
Definition undisturbed_file (k : nat) (fd : FileData) (t : nat) (a : AudioBuffer)
    (text : string) : list Event :=
  [ Deliver {| type := "transcribe"; file := Some fd; url := None |};
    Settle k OModule;
    Settle k (OTranscriber t);
    Settle k (OAudio a);
    Settle k (OResult text) ].

(** The same for a URL request. *)
Definition undisturbed_url (k : nat) (u : string) (resp : Response) (b : ArrayBuffer)
    (t : nat) (a : AudioBuffer) (text : string) : list Event :=
  [ Deliver {| type := "transcribeUrl"; file := None; url := Some u |};
    Settle k (OResponse resp);
    Settle k (OArrayBuffer b);
    Settle k OModule;
    Settle k (OTranscriber t);
    Settle k (OAudio a);
    Settle k (OResult text) ].

(** The audio context [c] is there or can be constructed. *)
Definition context_available (g : Globals) (c : nat) : Prop :=
  audioContext g = Some c \/
  (audioContext g = None /\ newOfflineAudioContext P 1 44100 44100 = inr c).

(** What the worker posts for a request that succeeds. *)
Definition success_messages (a : AudioBuffer) (text f_name : string) (f_size : num)
  : list OutMsg :=
  [ MProgress "model" "active" "Загрузка из CDN...";
    MProgress "model" "completed" "Модель загружена и закэширована";
    MProgress "decode" "active" "Декодирование...";
    MProgress "decode" "completed" (decoded_note a);
    MProgress "transcribe" "active" "Распознавание...";
    MProgress "transcribe" "completed" "Текст распознан";
    MResult text (duration a) (sampleRate a) (numberOfChannels a) f_name f_size ].

(** ** The hand-over between the stages *)

(** From its buffer's decoding on, run [rid0] has made the one call [x] of
    the transcriber, awaits it with the decoded buffer [a] or has ended, and
    any result it posted carries the figures of [a]. *)
Definition keeps_call (rid0 : nat) (x : nat * Samples * TranscribeOptions)
    (a : AudioBuffer) (g : Globals) (rid : nat) (pt : Point) (h : list Act) : Prop :=
  rid = rid0 ->
  transcriber_calls h = [x] /\
  (pt = Done \/ exists fd, pt = AtTranscribe fd a) /\
  forall text d sr k nm sz,
    In (Post (MResult text d sr k nm sz)) h ->
    d = duration a /\ sr = sampleRate a /\ k = numberOfChannels a.

End Worker.

Arguments evolves P g g' : clear implicits.
Arguments context_available P g c : clear implicits.
Arguments Return {A} a.
Arguments Throw {A} message.


(** ** A concrete platform, for running the model

    Whole numbers with truncated division; the context constructor works. *)
Definition whole_numbers : Platform :=
  {| number := Z;
     of_Z := fun z => z;
     ndiv := Z.div;
     nmul := Z.mul;
     num_str := pretty;
     toFixed := fun n _ => pretty n +:+ ".0";
     newOfflineAudioContext := fun _ _ _ => inr 7%nat;
     call_of_null := "transcriber is not a function" |}.

Module Demo.

Definition n (z : Z) : number whole_numbers := z.

Definition clip : @FileData whole_numbers :=
  {| name := "clip.wav"; size := n 2048;
     arrayBuffer := {| buffer_ref := 1; byteLength := n 2048 |} |}.

Definition audio : @AudioBuffer whole_numbers :=
  {| numberOfChannels := n 2; sampleRate := n 44100; duration := n 3;
     getChannelData := fun i => (100 + i)%nat |}.

Definition msg (ty : string) : @InMsg whole_numbers :=
  {| type := ty; file := Some clip; url := Some "https://host/a/clip.wav" |}.

Definition downloading : @ProgressData whole_numbers :=
  {| pd_status := "downloading"; loaded := n 512; total := n 2097152 |}.

(** One request, answered all the way. *)
Definition happy : list (@Event whole_numbers) :=
  [ Deliver (msg "transcribe");
    Settle 0 OModule;
    Progress 0 downloading;
    Settle 0 (OTranscriber 5);
    Settle 0 (OAudio audio);
    Settle 0 (OResult "привет") ].

(** A second request arrives between the cancellation of the first and the
    first one's next check of the flag. *)
Definition overtaken : list (@Event whole_numbers) :=
  [ Deliver (msg "transcribe");
    Deliver (msg "cancel");
    Deliver (msg "transcribe");
    Settle 0 OModule;
    Settle 0 (OTranscriber 5);
    Settle 0 (OAudio audio);
    Settle 0 (OResult "привет") ].

(** The first request is cancelled and nothing new is asked. *)
Definition cancelled_alone : list (@Event whole_numbers) :=
  [ Deliver (msg "transcribe");
    Settle 0 OModule;
    Deliver (msg "cancel") ].

Definition answered_late : list (@Event whole_numbers) :=
  [ Deliver (msg "ping");
    Progress 0 downloading ].

(** The two halves of [overtaken]. *)
Definition asked_then_cancelled : list (@Event whole_numbers) :=
  [ Deliver (msg "transcribe"); Deliver (msg "cancel") ].

Definition asked_again : list (@Event whole_numbers) :=
  [ Deliver (msg "transcribe");
    Settle 0 OModule;
    Settle 0 (OTranscriber 5);
    Settle 0 (OAudio audio);
    Settle 0 (OResult "привет") ].

(** The model is loading. *)
Definition loading : list (@Event whole_numbers) :=
  [ Deliver (msg "transcribe"); Settle 0 OModule ].

(** The audio cannot be decoded. *)
Definition undecodable : list (@Event whole_numbers) :=
  [ Deliver (msg "transcribe");
    Settle 0 OModule;
    Settle 0 (OTranscriber 5);
    Settle 0 (ORejected "Unable to decode audio data") ].

(** The cancellation arrives while the audio is being decoded. *)
Definition cancelled_decoding : list (@Event whole_numbers) :=
  [ Deliver (msg "transcribe");
    Settle 0 OModule;
    Settle 0 (OTranscriber 5);
    Deliver (msg "cancel") ].

(** The transcriber is awaited. *)
Definition transcribing : list (@Event whole_numbers) :=
  [ Deliver (msg "transcribe");
    Settle 0 OModule;
    Settle 0 (OTranscriber 5);
    Settle 0 (OAudio audio) ].

(** The state after a list of events, from the initial one. *)
Definition state_after (es : list (@Event whole_numbers)) : @State whole_numbers :=
  match exec es initial with
  | Some st => st
  | None => initial
  end.

(** The state after a list of events, from a given one. *)
Definition state_from (st : @State whole_numbers) (es : list (@Event whole_numbers))
  : @State whole_numbers :=
  match exec es st with
  | Some st' => st'
  | None => st
  end.

(** Can the events happen, one after the other? *)
Definition possible (st : @State whole_numbers) (es : list (@Event whole_numbers)) : bool :=
  match exec es st with
  | Some _ => true
  | None => false
  end.

Definition first_run (st : @State whole_numbers) : @Run whole_numbers :=
  match runs st !! 0%nat with
  | Some r => r
  | None => {| point := Done; hist := [] |}
  end.

(** A platform without the offline audio context (as in a worker scope that
    does not expose it): the constructor throws. *)
Definition no_audio : Platform :=
  {| number := Z;
     of_Z := fun z => z;
     ndiv := Z.div;
     nmul := Z.mul;
     num_str := pretty;
     toFixed := fun n _ => pretty n +:+ ".0";
     newOfflineAudioContext := fun _ _ _ => inl "OfflineAudioContext is not a constructor";
     call_of_null := "transcriber is not a function" |}.

Definition no_audio_clip : @FileData no_audio :=
  {| name := "clip.wav"; size := (2048%Z : number no_audio);
     arrayBuffer := {| buffer_ref := 1; byteLength := (2048%Z : number no_audio) |} |}.

(** The model loads, and decoding cannot start. *)
Definition no_audio_events : list (@Event no_audio) :=
  [ Deliver {| type := "transcribe"; file := Some no_audio_clip; url := None |};
    Settle 0 OModule;
    Settle 0 (OTranscriber 5) ].

Definition no_audio_state : @State no_audio :=
  match exec no_audio_events initial with
  | Some st => st
  | None => initial
  end.

Definition no_audio_run : @Run no_audio :=
  match runs no_audio_state !! 0%nat with
  | Some r => r
  | None => {| point := Done; hist := [] |}
  end.

(** A download that is refused. *)
Definition not_found : @Response whole_numbers := {| ok := false; status := n 404 |}.

Definition found : @Response whole_numbers := {| ok := true; status := n 200 |}.

Definition body : @ArrayBuffer whole_numbers := {| buffer_ref := 2; byteLength := n 4096 |}.

Definition downloading_url : list (@Event whole_numbers) :=
  [ Deliver (msg "transcribeUrl") ].

(** A report of the library that is not a download report. *)
Definition initiating : @ProgressData whole_numbers :=
  {| pd_status := "initiate"; loaded := n 0; total := n 0 |}.

(** Pings and a cancellation among other things. *)
Definition chatter : list (@Event whole_numbers) :=
  [ Deliver (msg "ping");
    Deliver (msg "transcribe");
    Deliver (msg "ping");
    Settle 0 OModule;
    Deliver (msg "cancel");
    Progress 0 downloading;
    Deliver (msg "status") ].

(** A second request, after a first one. *)
Definition second_request : list (@Event whole_numbers) :=
  [ Deliver (msg "ping");
    Deliver (msg "transcribe");
    Settle 1 OModule;
    Settle 1 (OTranscriber 6);
    Settle 1 (OAudio audio);
    Deliver (msg "cancel");
    Settle 1 (OResult "пока") ].

(** The audio is being decoded. *)
Definition decoding : list (@Event whole_numbers) :=
  [ Deliver (msg "transcribe");
    Settle 0 OModule;
    Settle 0 (OTranscriber 5) ].

End Demo.

(** * Properties *)

Section Facts.

Context {P : Platform}.

Implicit Types (g : Globals) (st : @State P) (r : @Run P) (h acts : list (@Act P))
  (pt : @Point P) (o : @Outcome P) (e : @Event P) (es : list (@Event P)).

Lemma digest_app h acts : digest (h ++ acts) = digest h ++ digest acts.
Proof. apply List.filter_app. Qed.

(** Case analysis on every test a piece makes. *)
Ltac split_tests :=
  repeat match goal with
         | |- context [if ?b then _ else _] => destruct b eqn:?
         | |- context [match ?x with _ => _ end] =>
             lazymatch x with
             | context [match _ with _ => _ end] => fail
             | context [if _ then _ else _] => fail
             | _ => destruct x eqn:?
             end
         end.

Lemma resume_ok pt o g g' acts pt' h :
  expected pt (digest h) ->
  resume pt o g = Some (g', acts, pt') ->
  expected pt' (digest (h ++ acts)).
Proof.
  intros Hexp Hres. rewrite digest_app.
  destruct pt; simpl in Hexp, Hres; try discriminate;
    try match type of Hexp with ex _ => destruct Hexp as [t Hexp] end;
    rewrite Hexp; destruct o; simpl in Hres; try discriminate.
  all: revert Hres; unfold initModel_after_import, initModel_after_pipeline,
    processUrl_after_fetch, processUrl_after_arrayBuffer, processFile_after_initModel,
    processFile_after_decode, processFile_after_transcribe, decodeAudio_enter,
    transcribeAudio_enter, initModel_catch, transcribeAudio_catch, processFile_catch,
    processFile, after; simpl.
  all: split_tests; simpl; intros [= <- <- <-]; simpl.
  all: try (eexists; reflexivity); try reflexivity; try (constructor; fail).
Qed.

Lemma callback_ok pt data g g' acts pt' h :
  expected pt (digest h) ->
  callback pt data g = Some (g', acts, pt') ->
  expected pt' (digest (h ++ acts)).
Proof.
  intros Hexp Hcb. destruct pt; try (simpl in Hcb; discriminate).
  unfold callback, progress_callback in Hcb. destruct (cancelled g) eqn:Hc.
  - eapply (resume_ok (AtPipeline fd) (ORejected "Cancelled") g); eauto.
  - rewrite digest_app. simpl in Hexp. rewrite Hexp.
    destruct (String.eqb (pd_status data) "downloading");
      injection Hcb as <- <- <-; reflexivity.
Qed.

(** An invariant of every turn holds along every execution. *)
Lemma exec_invariant (I : @State P -> Prop) :
  (forall e st st', I st -> handle e st = Some st' -> I st') ->
  forall es st st', I st -> exec es st = Some st' -> I st'.
Proof.
  intros Hstep es. induction es as [|e es IH]; intros st st' Hi Hex; simpl in Hex.
  - congruence.
  - destruct (handle e st) as [st1|] eqn:Hh; [|discriminate]. eauto.
Qed.

Lemma exec_app es1 es2 st :
  exec (es1 ++ es2) st = match exec es1 st with
                         | Some st1 => exec es2 st1
                         | None => None
                         end.
Proof.
  revert st. induction es1 as [|e es1 IH]; intros st; simpl; [reflexivity|].
  destruct (handle e st); auto.
Qed.

Lemma advance_runs rid r g' acts pt' st :
  runs (advance rid r (g', acts, pt') st)
  = <[rid := {| point := pt'; hist := hist r ++ acts |}]> (runs st).
Proof. reflexivity. Qed.

Lemma handle_runs_ok e st st' :
  Forall run_ok (runs st) -> handle e st = Some st' -> Forall run_ok (runs st').
Proof.
  intros Hall Hh. destruct e as [m|rid o|rid data|msg]; simpl in Hh.
  - unfold onmessage in Hh.
    repeat match type of Hh with
           | (if ?b then _ else _) = _ => destruct b
           | match ?x with _ => _ end = _ => destruct x; [|discriminate]
           end;
      injection Hh as <-; simpl; auto;
      apply Forall_app; split; auto; repeat constructor.
  - destruct (runs st !! rid) as [r|] eqn:Hr; [|discriminate].
    destruct (resume (point r) o (globals st)) as [[[g' acts] pt']|] eqn:Hres;
      [|discriminate].
    injection Hh as <-. unfold advance; cbn [runs]. apply Forall_insert; auto.
    unfold run_ok; simpl. eapply resume_ok; eauto.
    apply (Forall_lookup_1 _ _ _ _ Hall Hr).
  - destruct (runs st !! rid) as [r|] eqn:Hr; [|discriminate].
    destruct (callback (point r) data (globals st)) as [[[g' acts] pt']|] eqn:Hcb;
      [|discriminate].
    injection Hh as <-. unfold advance; cbn [runs]. apply Forall_insert; auto.
    unfold run_ok; simpl. eapply callback_ok; eauto.
    apply (Forall_lookup_1 _ _ _ _ Hall Hr).
  - injection Hh as <-. exact Hall.
Qed.

Lemma reachable_runs_ok st rid r :
  reachable st -> runs st !! rid = Some r -> run_ok r.
Proof.
  intros [es Hex] Hr.
  assert (Hall : Forall run_ok (runs st)).
  { eapply (exec_invariant (fun s => Forall run_ok (runs s))); eauto.
    - intros ? ? ?. apply handle_runs_ok.
    - constructor. }
  apply (Forall_lookup_1 _ _ _ _ Hall Hr).
Qed.

(** Observations that the digest keeps. *)
Lemma omap_digest {B} (f : Act -> option B) h :
  (forall a, notable a = false -> f a = None) ->
  omap f (digest h) = omap f h.
Proof.
  intros Hf. induction h as [|a h IH]; [reflexivity|].
  change (a :: h) with ([a] ++ h). rewrite digest_app, !omap_app, IH. f_equal.
  unfold digest. simpl. destruct (notable a) eqn:Hn; simpl; [reflexivity|].
  rewrite (Hf a Hn). reflexivity.
Qed.

Ltac by_notable :=
  intros [[]|[]| |]; simpl; intros; congruence.

Lemma trail_digest h : trail (digest h) = trail h.
Proof. apply omap_digest. by_notable. Qed.

Lemma errors_digest h : errors (digest h) = errors h.
Proof. apply omap_digest. by_notable. Qed.

Lemma thrown_digest h : thrown (digest h) = thrown h.
Proof. apply omap_digest. by_notable. Qed.

Lemma transcriber_calls_digest h : transcriber_calls (digest h) = transcriber_calls h.
Proof. apply omap_digest. by_notable. Qed.

Lemma in_digest a h : In a h -> notable a = true -> In a (digest h).
Proof. intros Hin Hn. apply List.filter_In. auto. Qed.

(** Membership in a list that is written out. *)
Ltac in_cases H :=
  simpl in H;
  repeat match type of H with
         | _ \/ _ => destruct H as [H|H]
         | False => destruct H
         end;
  try discriminate.

(** The boundaries a run has crossed are an initial part of the fixed
    order. *)
Lemma trail_prefix st rid r :
  reachable st -> runs st !! rid = Some r ->
  trail (hist r) `prefix_of` pipeline_order.
Proof.
  intros Hreach Hr. pose proof (reachable_runs_ok _ _ _ Hreach Hr) as Hok.
  unfold run_ok in Hok. rewrite <- trail_digest.
  destruct (point r); simpl in Hok;
    try match type of Hok with ex _ => destruct Hok as [t Hok] end;
    try (rewrite Hok; eexists; reflexivity).
  destruct Hok; eexists; reflexivity.
Qed.

(** A run posts at most one error, and only when it ends. *)
Lemma errors_of_run st rid r :
  reachable st -> runs st !! rid = Some r ->
  (length (errors (hist r)) <= 1)%nat /\
  (errors (hist r) <> [] -> point r = Done).
Proof.
  intros Hreach Hr. pose proof (reachable_runs_ok _ _ _ Hreach Hr) as Hok.
  unfold run_ok in Hok. rewrite <- errors_digest.
  destruct (point r); simpl in Hok;
    try match type of Hok with ex _ => destruct Hok as [t Hok] end;
    try (rewrite Hok; simpl; split; [lia|congruence]).
  split; [destruct Hok; simpl; lia|reflexivity].
Qed.

(** What a suspended run has crossed, called and posted so far. *)
Lemma suspended_run st rid r :
  reachable st -> runs st !! rid = Some r ->
  errors (hist r) = [] \/ point r = Done.
Proof.
  intros Hreach Hr. destruct (errors_of_run st rid r Hreach Hr) as [_ Hdone].
  destruct (errors (hist r)); [left; reflexivity|right; apply Hdone; discriminate].
Qed.

Lemma trail_at st rid r :
  reachable st -> runs st !! rid = Some r ->
  match point r with
  | AtFetch _ | AtArrayBuffer _ _ => trail (hist r) = []
  | AtImport _ | AtPipeline _ => trail (hist r) = [(Model, true)]
  | AtDecode _ =>
      trail (hist r) = [(Model, true); (Model, false); (Decode, true)] /\
      transcriber_calls (hist r) = []
  | AtTranscribe _ _ =>
      trail (hist r) = [(Model, true); (Model, false); (Decode, true);
                        (Decode, false); (Transcribe, true)]
  | Done => True
  end.
Proof.
  intros Hreach Hr. pose proof (reachable_runs_ok _ _ _ Hreach Hr) as Hok.
  unfold run_ok in Hok.
  rewrite <- (trail_digest (hist r)), <- (transcriber_calls_digest (hist r)).
  destruct (point r); simpl in Hok;
    try match type of Hok with ex _ => destruct Hok as [t Hok] end;
    try rewrite Hok; auto.
Qed.

(** ** The turns of the event loop *)

Lemma handle_turn e st st' : handle e st = Some st' -> turn e st st'.
Proof.
  intros Hh. destruct e as [m|rid o|rid data|msg]; simpl in Hh.
  - unfold onmessage in Hh.
    destruct (String.eqb_spec (type m) "transcribe") as [E1|E1].
    { destruct (file m) eqn:Hf; [|discriminate]. injection Hh as <-.
      constructor; assumption. }
    destruct (String.eqb_spec (type m) "transcribeUrl") as [E2|E2].
    { destruct (url m) eqn:Hu; [|discriminate]. injection Hh as <-.
      constructor; assumption. }
    destruct (String.eqb_spec (type m) "cancel") as [E3|E3].
    { injection Hh as <-. constructor; assumption. }
    destruct (String.eqb_spec (type m) "ping") as [E4|E4];
      injection Hh as <-; constructor; assumption.
  - destruct (runs st !! rid) as [r|] eqn:Hr; [|discriminate].
    destruct (resume (point r) o (globals st)) as [p|] eqn:Hres; [|discriminate].
    injection Hh as <-. constructor; assumption.
  - destruct (runs st !! rid) as [r|] eqn:Hr; [|discriminate].
    destruct (callback (point r) data (globals st)) as [p|] eqn:Hcb; [|discriminate].
    injection Hh as <-. constructor; assumption.
  - injection Hh as <-. constructor.
Qed.

Lemma turn_handle e st st' : turn e st st' -> handle e st = Some st'.
Proof.
  intros Ht. destruct Ht; simpl; unfold onmessage;
    repeat match goal with
           | H : type _ = _ |- _ => rewrite H; clear H
           | H : file _ = _ |- _ => rewrite H; clear H
           | H : url _ = _ |- _ => rewrite H; clear H
           | H : runs _ !! _ = _ |- _ => rewrite H; clear H
           | H : resume _ _ _ = _ |- _ => rewrite H; clear H
           | H : callback _ _ _ = _ |- _ => rewrite H; clear H
           | H : type ?m <> ?s |- _ =>
               rewrite (proj2 (String.eqb_neq (type m) s) H); clear H
           end; reflexivity.
Qed.

(** ** Progress messages *)

Lemma append_nonempty_r (s t : string) : t <> "" -> s +:+ t <> "".
Proof. destruct s; simpl; [auto|discriminate]. Qed.

Ltac progress_valid :=
  simpl;
  repeat match goal with
         | |- Forall _ [] => constructor
         | |- Forall _ (_ :: _) => constructor
         | |- progress_ok _ => simpl
         | |- True => exact I
         | |- _ /\ _ => split
         | |- _ ∈ _ => repeat constructor
         | |- _ +:+ _ <> "" => apply append_nonempty_r
         | |- _ <> "" => discriminate
         end.

Lemma resume_posts_ok pt o g g' acts pt' :
  resume pt o g = Some (g', acts, pt') -> Forall progress_ok (posts acts).
Proof.
  intros Hres. destruct pt; simpl in Hres; try discriminate;
    destruct o; simpl in Hres; try discriminate.
  all: revert Hres; unfold initModel_after_import, initModel_after_pipeline,
    processUrl_after_fetch, processUrl_after_arrayBuffer, processFile_after_initModel,
    processFile_after_decode, processFile_after_transcribe, decodeAudio_enter,
    transcribeAudio_enter, initModel_catch, transcribeAudio_catch, processFile_catch,
    processFile, after; simpl.
  all: split_tests; simpl; intros [= <- <- <-]; progress_valid.
Qed.

Lemma callback_posts_ok pt data g g' acts pt' :
  callback pt data g = Some (g', acts, pt') -> Forall progress_ok (posts acts).
Proof.
  intros Hcb. destruct pt; try (simpl in Hcb; discriminate).
  unfold callback, progress_callback in Hcb. destruct (cancelled g).
  - eapply (resume_posts_ok (AtPipeline fd) (ORejected "Cancelled") g); eauto.
  - destruct (String.eqb (pd_status data) "downloading");
      injection Hcb as <- <- <-; progress_valid.
Qed.

(** C3: every progress message the worker ever posts names one of the three
    stages (model, decode, transcribe), has status active or completed, and
    a message that is not empty. *)
Theorem progress_messages_valid st :
  reachable st -> Forall progress_ok (out st).
Proof.
  intros [es Hex].
  eapply (exec_invariant (fun s => Forall progress_ok (out s))); eauto;
    [|constructor].
  clear. intros e st st' Hall Hh. apply handle_turn in Hh.
  destruct Hh as [m fd st _ _|m u st _ _|m st _|m st _|m st _ _ _ _
                 |rid o r [[g' acts] pt'] st _ Hres
                 |rid data r [[g' acts] pt'] st _ Hcb|msg st];
    simpl; try assumption; apply Forall_app; split; try assumption;
    try (progress_valid; fail).
  - eapply resume_posts_ok; eauto.
  - eapply callback_posts_ok; eauto.
Qed.

(** ** Results *)

Lemma resume_result pt o g g' acts pt' text d sr n nm sz :
  resume pt o g = Some (g', acts, pt') ->
  In (Post (MResult text d sr n nm sz)) acts ->
  o = OResult text /\ exists fd a, pt = AtTranscribe fd a.
Proof.
  intros Hres. destruct pt; simpl in Hres; try discriminate;
    destruct o; simpl in Hres; try discriminate.
  all: revert Hres; unfold initModel_after_import, initModel_after_pipeline,
    processUrl_after_fetch, processUrl_after_arrayBuffer, processFile_after_initModel,
    processFile_after_decode, processFile_after_transcribe, decodeAudio_enter,
    transcribeAudio_enter, initModel_catch, transcribeAudio_catch, processFile_catch,
    processFile, after; simpl.
  all: split_tests; simpl; intros [= <- <- <-] Hin; in_cases Hin.
  injection Hin as <- _ _ _ _ _. split; [reflexivity|eauto].
Qed.

Lemma callback_result pt data g g' acts pt' text d sr n nm sz :
  callback pt data g = Some (g', acts, pt') ->
  ~ In (Post (MResult text d sr n nm sz)) acts.
Proof.
  intros Hcb Hin. destruct pt; try (simpl in Hcb; discriminate).
  unfold callback, progress_callback in Hcb. destruct (cancelled g).
  - destruct (resume_result _ _ _ _ _ _ _ _ _ _ _ _ Hcb Hin) as [? _]. discriminate.
  - destruct (String.eqb (pd_status data) "downloading");
      injection Hcb as <- <- <-; in_cases Hin.
Qed.

Lemma in_posts m acts : In m (posts acts) <-> In (Post m) acts.
Proof.
  unfold posts. rewrite <- !list_elem_of_In, list_elem_of_omap. split.
  - intros [a [Ha Hm]]. destruct a; try discriminate. congruence.
  - intros Hin. exists (Post m). auto.
Qed.

(** C7: a result message is posted only in the turn in which the
    transcriber's promise of a run awaiting it is fulfilled, and its text is
    the text of that fulfilment, unchanged. *)
Theorem result_text_unchanged e st st' :
  handle e st = Some st' ->
  exists new,
    out st' = out st ++ new /\
    forall text d sr n nm sz,
      In (MResult text d sr n nm sz) new ->
      exists rid r fd a,
        e = Settle rid (OResult text) /\
        runs st !! rid = Some r /\ point r = AtTranscribe fd a.
Proof.
  intros Hh. apply handle_turn in Hh.
  destruct Hh as [m fd st _ _|m u st _ _|m st _|m st _|m st _ _ _ _
                 |rid o r [[g' acts] pt'] st Hr Hres
                 |rid data r [[g' acts] pt'] st Hr Hcb|msg st];
    simpl; eexists; (split; [try reflexivity|]).
  all: try (intros text d sr n nm sz Hin; in_cases Hin; fail).
  - symmetry; apply app_nil_r.
  - intros text d sr n nm sz Hin. destruct Hin.
  - intros text d sr n nm sz Hin. apply in_posts in Hin.
    destruct (resume_result _ _ _ _ _ _ _ _ _ _ _ _ Hres Hin) as [-> [fd [a Hpt]]].
    eauto 10.
  - intros text d sr n nm sz Hin. apply in_posts in Hin.
    destruct (callback_result _ _ _ _ _ _ _ _ _ _ _ _ Hcb Hin).
Qed.

(** ** Requests, ping and unknown messages *)

(** C9: a processing request ("transcribe" or "transcribeUrl") leaves the
    flag false whatever it was, starts a run that awaits its first external
    call, and the whole answer is the same whether or not a cancellation had
    set the flag before. *)
Theorem request_resets_flag m st st' b :
  is_request (Deliver m) = true ->
  handle (Deliver m) st = Some st' ->
  cancelled (globals st') = false /\
  (exists r, runs st' = runs st ++ [r] /\ point r <> Done) /\
  handle (Deliver m) (with_flag b st) = Some st'.
Proof.
  intros Hreq Hh. simpl in Hreq, Hh |- *. unfold onmessage in *. simpl.
  destruct (String.eqb (type m) "transcribe").
  - destruct (file m); [|discriminate]. injection Hh as <-. simpl.
    split; [reflexivity|].
    split; [eexists; split; [reflexivity|discriminate]|reflexivity].
  - destruct (String.eqb (type m) "transcribeUrl"); [|discriminate].
    destruct (url m); [|discriminate]. injection Hh as <-. simpl.
    split; [reflexivity|].
    split; [eexists; split; [reflexivity|discriminate]|reflexivity].
Qed.

(** C10: a "ping" posts exactly one pong and changes neither the globals nor
    any run; a message of any type other than "transcribe", "transcribeUrl",
    "cancel" and "ping" changes nothing and posts nothing. *)
Theorem ping_and_unknown m st :
  (type m = "ping" ->
   handle (Deliver m) st
   = Some {| globals := globals st; out := out st ++ [MPong]; runs := runs st |}) /\
  (type m <> "transcribe" -> type m <> "transcribeUrl" ->
   type m <> "cancel" -> type m <> "ping" ->
   handle (Deliver m) st = Some st).
Proof.
  split.
  - intros Hty. apply turn_handle. constructor. exact Hty.
  - intros. apply turn_handle. constructor; assumption.
Qed.

(** ** Cancellation *)

Lemma resume_cancelled pt o g g' acts pt' :
  cancelled g = true ->
  resume pt o g = Some (g', acts, pt') ->
  cancelled g' = true /\ forallb starts_nothing acts = true.
Proof.
  intros Hc Hres. destruct g as [tr ctx fl]. simpl in Hc. subst fl.
  destruct pt; simpl in Hres; try discriminate;
    destruct o; simpl in Hres; try discriminate.
  all: revert Hres; unfold initModel_after_import, initModel_after_pipeline,
    processUrl_after_fetch, processUrl_after_arrayBuffer, processFile_after_initModel,
    processFile_after_decode, processFile_after_transcribe, decodeAudio_enter,
    transcribeAudio_enter, initModel_catch, transcribeAudio_catch, processFile_catch,
    processFile, after; simpl.
  all: split_tests; simpl; intros [= <- <- <-]; simpl; auto.
Qed.

Lemma callback_cancelled pt data g g' acts pt' :
  cancelled g = true ->
  callback pt data g = Some (g', acts, pt') ->
  cancelled g' = true /\ forallb starts_nothing acts = true.
Proof.
  intros Hc Hcb. destruct pt; try (simpl in Hcb; discriminate).
  unfold callback, progress_callback in Hcb. rewrite Hc in Hcb.
  eapply (resume_cancelled (AtPipeline fd) (ORejected "Cancelled") g); eauto.
Qed.

Lemma grows_quietly_refl r : grows_quietly r r.
Proof. exists []. split; [symmetry; apply app_nil_r|reflexivity]. Qed.

Lemma grows_quietly_trans r1 r2 r3 :
  grows_quietly r1 r2 -> grows_quietly r2 r3 -> grows_quietly r1 r3.
Proof.
  intros [x1 [H1 Q1]] [x2 [H2 Q2]]. exists (x1 ++ x2). split.
  - rewrite H2, H1, app_assoc. reflexivity.
  - rewrite forallb_app, Q1, Q2. reflexivity.
Qed.

Lemma advance_lookup rid r p st i ri :
  runs st !! rid = Some r ->
  runs st !! i = Some ri ->
  exists ri', runs (advance rid r p st) !! i = Some ri' /\
    (i = rid /\ ri = r /\
       ri' = {| point := snd p; hist := hist r ++ snd (fst p) |}
     \/ i <> rid /\ ri' = ri).
Proof.
  intros Hr Hi. destruct p as [[g' acts] pt']. simpl.
  destruct (decide (i = rid)) as [->|Hne].
  - eexists. split.
    + apply list_lookup_insert_eq. eapply lookup_lt_Some; eauto.
    + left. split; [reflexivity|]. split; [congruence|reflexivity].
  - exists ri. split; [|right; auto].
    rewrite list_lookup_insert_ne; auto.
Qed.

Lemma turn_cancelled e st st' :
  cancelled (globals st) = true -> is_request e = false ->
  handle e st = Some st' ->
  cancelled (globals st') = true /\
  forall rid r, runs st !! rid = Some r ->
    exists r', runs st' !! rid = Some r' /\ grows_quietly r r'.
Proof.
  intros Hc Hreq Hh. apply handle_turn in Hh.
  destruct Hh as [m fd st E _|m u st E _|m st _|m st _|m st _ _ _ _
                 |rid0 o r0 [[g' acts] pt'] st Hr Hres
                 |rid0 data r0 [[g' acts] pt'] st Hr Hcb|msg st];
    simpl in Hreq; try (rewrite E in Hreq; discriminate).
  1-3,6: split; [assumption || reflexivity|];
    intros rid r Hl; exists r; split; [exact Hl|apply grows_quietly_refl].
  - destruct (resume_cancelled _ _ _ _ _ _ Hc Hres) as [Hc' Hq].
    split; [exact Hc'|]. intros rid r Hl.
    destruct (advance_lookup rid0 r0 (g', acts, pt') st rid r Hr Hl)
      as [r' [Hl' Hcase]].
    exists r'. split; [exact Hl'|].
    destruct Hcase as [[-> [-> ->]]|[_ ->]];
      [exists acts; split; [reflexivity|exact Hq]|apply grows_quietly_refl].
  - destruct (callback_cancelled _ _ _ _ _ _ Hc Hcb) as [Hc' Hq].
    split; [exact Hc'|]. intros rid r Hl.
    destruct (advance_lookup rid0 r0 (g', acts, pt') st rid r Hr Hl)
      as [r' [Hl' Hcase]].
    exists r'. split; [exact Hl'|].
    destruct Hcase as [[-> [-> ->]]|[_ ->]];
      [exists acts; split; [reflexivity|exact Hq]|apply grows_quietly_refl].
Qed.

(** C2, as the code has it: when the flag is set and no new processing
    request is handled afterwards (a request resets the shared flag), the
    flag stays set and every run that exists enters no further stage and
    posts no result, whatever else happens. *)
Theorem cancel_short_circuits es st st' rid r :
  cancelled (globals st) = true ->
  forallb (fun e => negb (is_request e)) es = true ->
  exec es st = Some st' ->
  runs st !! rid = Some r ->
  cancelled (globals st') = true /\
  exists r', runs st' !! rid = Some r' /\ grows_quietly r r'.
Proof.
  revert st r. induction es as [|e es IH]; intros st r Hc Hes Hex Hr; simpl in *.
  - injection Hex as <-. split; [exact Hc|].
    exists r. split; [exact Hr|apply grows_quietly_refl].
  - apply andb_prop in Hes as [He Hes]. apply negb_true_iff in He.
    destruct (handle e st) as [st1|] eqn:Hh; [|discriminate].
    destruct (turn_cancelled _ _ _ Hc He Hh) as [Hc1 Hruns].
    destruct (Hruns _ _ Hr) as [r1 [Hr1 Hq1]].
    destruct (IH st1 r1 Hc1 Hes Hex Hr1) as [Hc' [r' [Hr' Hq']]].
    split; [exact Hc'|]. exists r'. split; [exact Hr'|].
    eapply grows_quietly_trans; eauto.
Qed.

(** C5, as the code has it: the cancellation state is the one boolean of the
    globals, and it bears on the worker's behaviour only where the source
    reads it: at the checks after the awaited initModel, decodeAudio,
    transcribeAudio and response.arrayBuffer() calls, and inside
    progress_callback, which the library runs during the awaited pipeline
    call.  Every other turn answers the same with the flag set or not. *)
Theorem flag_read_only_at_checks e st :
  at_flag_check e st = false -> flag_blind e st.
Proof.
  intros Hat. unfold flag_blind.
  destruct e as [m|rid o|rid data|msg]; simpl in Hat |- *; try discriminate.
  - unfold onmessage; simpl. split_tests; reflexivity.
  - destruct (runs st !! rid) as [r|]; [|reflexivity].
    destruct (point r); try discriminate; destruct o; simpl; try reflexivity.
    all: unfold initModel_after_import, processUrl_after_fetch,
      processFile_after_initModel, initModel_catch, processFile_catch, after; simpl.
    all: split_tests; reflexivity.
  - reflexivity.
Qed.

(** ** Runs ended by the cancellation *)

Lemma posts_app h acts : posts (h ++ acts) = posts h ++ posts acts.
Proof. apply omap_app. Qed.

Lemma posts_quiet h :
  forallb quiet_act (digest h) = true -> forallb quiet_msg (posts h) = true.
Proof.
  induction h as [|a h IH]; [reflexivity|].
  change (a :: h) with ([a] ++ h).
  rewrite digest_app, posts_app, !forallb_app. intros [Ha Hh]%andb_prop.
  rewrite (IH Hh), andb_true_r. clear IH Hh.
  destruct a as [[]|[]| |]; try reflexivity; exact Ha.
Qed.

Lemma suspended_quiet pt h :
  expected pt (digest h) -> pt <> Done -> forallb quiet_msg (posts h) = true.
Proof.
  intros Hexp Hpt. apply posts_quiet.
  destruct pt; simpl in Hexp; try congruence;
    try match type of Hexp with ex _ => destruct Hexp as [t Hexp] end;
    rewrite Hexp; reflexivity.
Qed.

Lemma resume_ends_quietly pt o g g' acts pt' :
  resume pt o g = Some (g', acts, pt') ->
  match pt, o with
  | AtPipeline _, OTranscriber _
  | AtDecode _, OAudio _
  | AtTranscribe _ _, OResult _
  | AtArrayBuffer _ _, OArrayBuffer _ => cancelled g
  | AtPipeline _, ORejected m
  | AtTranscribe _ _, ORejected m => String.eqb m "Cancelled"
  | _, _ => false
  end = true ->
  pt' = Done /\ forallb quiet_msg (posts acts) = true.
Proof.
  intros Hres Hend. destruct g as [tr ctx fl].
  destruct pt; try discriminate; destruct o; try discriminate;
    simpl in Hend; try subst fl; revert Hres; simpl;
    unfold initModel_catch, transcribeAudio_catch, processFile_after_initModel,
      processFile_after_decode, processFile_after_transcribe,
      processUrl_after_arrayBuffer, after; simpl; rewrite ?Hend; simpl;
    try destruct fl; simpl; intros [= <- <- <-]; auto.
Qed.

(** C8: a turn that ends a run through the cancellation (a flag check that
    finds the flag set, progress_callback finding it set, or the error
    'Cancelled' caught in initModel or transcribeAudio) leaves the run
    finished having posted no result, no error and no log in its whole life;
    and the cancel handler itself sets the flag and posts exactly one log. *)
Theorem cancelled_run_is_silent e st st' rid :
  reachable st ->
  handle e st = Some st' ->
  ends_by_cancellation e st rid = true ->
  (exists r', runs st' !! rid = Some r' /\ point r' = Done /\
              forallb quiet_msg (posts (hist r')) = true) /\
  (forall m, type m = "cancel" ->
     handle (Deliver m) st
     = Some {| globals := set_cancelled true (globals st);
               out := out st ++ [MLog "Обработка отменена"];
               runs := runs st |}).
Proof.
  intros Hreach Hh Hend. split.
  2:{ intros m Hty. apply turn_handle. constructor. exact Hty. }
  destruct e as [m|rid0 o|rid0 data|msg]; simpl in Hend; try discriminate;
    apply andb_prop in Hend as [Hid Hend]; apply Nat.eqb_eq in Hid; subst rid0;
    simpl in Hh; destruct (runs st !! rid) as [r|] eqn:Hr; try discriminate.
  - destruct (resume (point r) o (globals st)) as [[[g' acts] pt']|] eqn:Hres;
      [|discriminate].
    injection Hh as <-. simpl.
    pose proof (reachable_runs_ok _ _ _ Hreach Hr) as Hok.
    assert (Hpt : point r <> Done) by (intros E; rewrite E in Hres; discriminate).
    destruct (resume_ends_quietly _ _ _ _ _ _ Hres Hend) as [-> Hq].
    eexists. split; [apply list_lookup_insert_eq; eapply lookup_lt_Some; eauto|].
    split; [reflexivity|]. simpl.
    rewrite posts_app, forallb_app, Hq, (suspended_quiet _ _ Hok Hpt). reflexivity.
  - destruct (callback (point r) data (globals st)) as [[[g' acts] pt']|] eqn:Hcb;
      [|discriminate].
    injection Hh as <-. simpl.
    pose proof (reachable_runs_ok _ _ _ Hreach Hr) as Hok.
    destruct (point r) as [?|fd|?|? ?|?|? ?|] eqn:Hpoint; try (simpl in Hcb; discriminate).
    unfold callback, progress_callback in Hcb. rewrite Hend in Hcb.
    destruct (resume_ends_quietly (AtPipeline fd) (ORejected "Cancelled")
                _ _ _ _ Hcb eq_refl) as [-> Hq].
    eexists. split; [apply list_lookup_insert_eq; eapply lookup_lt_Some; eauto|].
    split; [reflexivity|]. simpl.
    assert (Hpt : AtPipeline fd <> Done) by discriminate.
    unfold run_ok in Hok. rewrite Hpoint in Hok.
    rewrite posts_app, forallb_app, Hq, (suspended_quiet _ _ Hok Hpt). reflexivity.
Qed.

(** ** The file name of a URL *)

Lemma split_slash_nonempty (s : string) : split_slash s <> [].
Proof.
  destruct s as [|c rest]; simpl; [discriminate|].
  destruct (Ascii.eqb c "/"); [discriminate|].
  destruct (split_slash rest); discriminate.
Qed.

(** Splitting at the slashes and joining with slashes gives the string
    back. *)
Lemma split_slash_join (s : string) : join_slash (split_slash s) = s.
Proof.
  unfold join_slash. induction s as [|c rest IH]; [reflexivity|].
  simpl. destruct (Ascii.eqb_spec c "/"%char) as [->|Hc].
  - pose proof (split_slash_nonempty rest) as Hne.
    simpl. destruct (split_slash rest); [congruence|].
    simpl in IH |- *. rewrite IH. reflexivity.
  - pose proof (split_slash_nonempty rest) as Hne.
    destruct (split_slash rest) as [|h t]; [congruence|].
    destruct t; simpl in IH |- *; rewrite <- IH; reflexivity.
Qed.

Lemma split_slash_parts (s : string) :
  Forall (fun p => has_slash p = false) (split_slash s).
Proof.
  induction s as [|c rest IH]; simpl; [repeat constructor|].
  destruct (Ascii.eqb c "/") eqn:Hc; [constructor; [reflexivity|exact IH]|].
  destruct (split_slash rest) as [|h t]; [repeat constructor; simpl; rewrite Hc; reflexivity|].
  inversion IH; subst. constructor; [simpl; rewrite Hc; assumption|assumption].
Qed.

Lemma split_slash_plain (s : string) : has_slash s = false -> split_slash s = [s].
Proof.
  induction s as [|c rest IH]; simpl; [reflexivity|].
  destruct (Ascii.eqb c "/"); simpl; [discriminate|].
  intros H. rewrite (IH H). reflexivity.
Qed.

Lemma split_slash_app (a b : string) :
  split_slash (a +:+ "/" +:+ b) = split_slash a ++ split_slash b.
Proof.
  induction a as [|c rest IH]; [reflexivity|].
  simpl. destruct (Ascii.eqb c "/").
  - simpl in IH. rewrite IH. reflexivity.
  - simpl in IH. rewrite IH.
    pose proof (split_slash_nonempty rest) as Hne.
    destruct (split_slash rest); [congruence|reflexivity].
Qed.

(** X2: The name given to a downloaded file is never empty and holds no
    slash. *)
Theorem url_file_name_plain (u : string) :
  url_file_name u <> "" /\ has_slash (url_file_name u) = false.
Proof.
  unfold url_file_name.
  destruct (String.eqb_spec (List.last (split_slash u) "") "") as [E|E].
  - split; [discriminate|reflexivity].
  - split; [exact E|].
    pose proof (split_slash_parts u) as Hall.
    pose proof (split_slash_nonempty u) as Hne.
    destruct (exists_last Hne) as [l [x Hx]]. rewrite Hx in Hall |- *.
    rewrite List.last_last.
    apply Forall_app in Hall as [_ Hx']. inversion Hx'; assumption.
Qed.

(** X3: The name is what follows the last slash of the URL, and "audio" when
    nothing follows it. *)
Theorem url_file_name_last_part (dir base : string) :
  has_slash base = false ->
  url_file_name (dir +:+ "/" +:+ base)
  = if String.eqb base "" then "audio" else base.
Proof.
  intros Hb. unfold url_file_name.
  rewrite split_slash_app, (split_slash_plain base Hb), List.last_last.
  reflexivity.
Qed.

(** X4: A URL without any slash is its own file name ("audio" when empty). *)
Theorem url_file_name_no_slash (u : string) :
  has_slash u = false ->
  url_file_name u = if String.eqb u "" then "audio" else u.
Proof.
  intros Hu. unfold url_file_name. rewrite (split_slash_plain u Hu). reflexivity.
Qed.

(** ** Invariants of the globals and of the runs, in general *)

Lemma evolves_trans g1 g2 g3 : evolves P g1 g2 -> evolves P g2 g3 -> evolves P g1 g3.
Proof.
  intros H12 H23.
  induction H12;
    [ assumption | eapply ev_flag; eauto | eapply ev_model; eauto
    | eapply ev_context; eauto ].
Qed.

Ltac evolved :=
  solve [ apply ev_same
        | eapply ev_flag; apply ev_same
        | eapply ev_model; apply ev_same
        | eapply ev_context; [eassumption|eassumption|apply ev_same]
        | eapply ev_model; eapply ev_context; [simpl; eassumption|eassumption|apply ev_same] ].

Lemma resume_evolves pt o g g' acts pt' :
  resume pt o g = Some (g', acts, pt') -> evolves P g g'.
Proof.
  intros Hres. destruct pt; simpl in Hres; try discriminate;
    destruct o; simpl in Hres; try discriminate.
  all: revert Hres; unfold initModel_after_import, initModel_after_pipeline,
    processUrl_after_fetch, processUrl_after_arrayBuffer, processFile_after_initModel,
    processFile_after_decode, processFile_after_transcribe, decodeAudio_enter,
    transcribeAudio_enter, initModel_catch, transcribeAudio_catch, processFile_catch,
    processFile, after; simpl.
  all: split_tests; simpl; intros [= <- <- <-]; evolved.
Qed.

Lemma callback_cases pt data g g' acts pt' :
  callback pt data g = Some (g', acts, pt') ->
  exists fd, pt = AtPipeline fd /\
    (progress_callback data g = Return acts /\ g' = g /\ pt' = AtPipeline fd \/
     progress_callback data g = Throw "Cancelled" /\
     resume (AtPipeline fd) (ORejected "Cancelled") g = Some (g', acts, pt')).
Proof.
  intros Hcb. destruct pt; try (simpl in Hcb; discriminate).
  exists fd. split; [reflexivity|]. unfold callback in Hcb.
  destruct (progress_callback data g) as [acts0|e] eqn:Hp.
  - injection Hcb as <- <- <-. left. auto.
  - right. unfold progress_callback in Hp.
    destruct (cancelled g); [|destruct (String.eqb _ _); discriminate].
    injection Hp as <-. auto.
Qed.

Section Sweep.

Variable G : Globals -> Prop.
Variable R : Globals -> nat -> @Point P -> list (@Act P) -> Prop.
Variable n0 : nat.

Hypothesis G_evolves : forall g g', evolves P g g' -> G g -> G g'.
Hypothesis R_evolves :
  forall g g' rid pt h, evolves P g g' -> G g -> R g rid pt h -> R g' rid pt h.
Hypothesis R_file :
  forall g rid fd, (n0 <= rid)%nat -> G g ->
    R (set_cancelled false g) rid (AtImport fd) initModel_enter.
Hypothesis R_url :
  forall g rid u, (n0 <= rid)%nat -> G g ->
    R (set_cancelled false g) rid (AtFetch u)
      [progress "decode" "active" "Загрузка аудио..."; Call (CallFetch u)].
Hypothesis R_resume :
  forall g rid pt h o g' acts pt',
    G g -> R g rid pt h -> resume pt o g = Some (g', acts, pt') ->
    R g' rid pt' (h ++ acts).
Hypothesis R_callback :
  forall g rid fd h data acts,
    G g -> R g rid (AtPipeline fd) h -> progress_callback data g = Return acts ->
    R g rid (AtPipeline fd) (h ++ acts).

Lemma sweep_spawn g' acts pt st :
  swept G R n0 st -> evolves P (globals st) g' ->
  R g' (length (runs st)) pt acts ->
  swept G R n0 (spawn (g', acts, pt) st).
Proof.
  intros (Hn & Hg & Hr) Hev Hnew. split; [|split]; simpl.
  - rewrite length_app. simpl. lia.
  - eauto.
  - intros rid r Hl. apply lookup_app_Some in Hl as [Hl|[Hlen Hl]].
    + eauto.
    + destruct (rid - length (runs st))%nat as [|k] eqn:Hk; simpl in Hl; [|discriminate].
      injection Hl as <-. simpl.
      replace rid with (length (runs st)) by lia. exact Hnew.
Qed.

Lemma sweep_advance rid r g' acts pt' st :
  swept G R n0 st -> runs st !! rid = Some r -> evolves P (globals st) g' ->
  R g' rid pt' (hist r ++ acts) ->
  swept G R n0 (advance rid r (g', acts, pt') st).
Proof.
  intros (Hn & Hg & Hr) Hl Hev Hnew. split; [|split]; simpl.
  - rewrite length_insert. exact Hn.
  - eauto.
  - intros i ri Hi. destruct (decide (i = rid)) as [->|Hne].
    + rewrite list_lookup_insert_eq in Hi by (eapply lookup_lt_Some; eauto).
      injection Hi as <-. exact Hnew.
    + rewrite list_lookup_insert_ne in Hi by auto. eauto.
Qed.

Lemma sweep_turn e st st' :
  swept G R n0 st -> handle e st = Some st' -> swept G R n0 st'.
Proof.
  intros Hs Hh. apply handle_turn in Hh. pose proof Hs as (Hn & Hg & Hr).
  destruct Hh as [m fd st _ _|m u st _ _|m st _|m st _|m st _ _ _ _
                 |rid o r [[g' acts] pt'] st Hl Hres
                 |rid data r [[g' acts] pt'] st Hl Hcb|msg st].
  - apply sweep_spawn; [exact Hs|eapply ev_flag; apply ev_same|].
    apply R_file; [exact Hn|exact Hg].
  - apply sweep_spawn; [exact Hs|eapply ev_flag; apply ev_same|].
    apply R_url; [exact Hn|exact Hg].
  - assert (Hev : evolves P (globals st) (set_cancelled true (globals st)))
      by (eapply ev_flag; apply ev_same).
    split; [exact Hn|]. split; simpl; eauto.
  - exact Hs.
  - exact Hs.
  - apply sweep_advance; eauto using resume_evolves.
  - destruct (callback_cases _ _ _ _ _ _ Hcb)
      as [fd [Hpt [(Hp & -> & ->)|(_ & Hres)]]].
    + apply sweep_advance; [exact Hs|exact Hl|apply ev_same|].
      eapply R_callback; eauto. rewrite <- Hpt. eauto.
    + specialize (Hr _ _ Hl). rewrite Hpt in Hr.
      apply sweep_advance; [exact Hs|exact Hl|eapply resume_evolves; eauto|].
      exact (R_resume _ _ _ _ _ _ _ _ Hg Hr Hres).
  - exact Hs.
Qed.

Lemma sweep_exec es st st' :
  swept G R n0 st -> exec es st = Some st' -> swept G R n0 st'.
Proof.
  intros Hs Hex.
  eapply (exec_invariant (swept G R n0)); eauto.
  intros ? ? ?. apply sweep_turn.
Qed.

End Sweep.

(** ** The end of a run *)

Lemma results_digest h : results (digest h) = results h.
Proof. apply omap_digest. by_notable. Qed.

(** X5: A run posts at most one message that ends it: one result or one error,
    never both and never two; and a run that posted a result has finished. *)
Theorem one_terminal_message st rid r :
  reachable st -> runs st !! rid = Some r ->
  (length (results (hist r)) + length (errors (hist r)) <= 1)%nat /\
  (results (hist r) <> [] -> point r = Done).
Proof.
  intros Hreach Hr. pose proof (reachable_runs_ok _ _ _ Hreach Hr) as Hok.
  unfold run_ok in Hok. rewrite <- results_digest, <- errors_digest.
  destruct (point r); simpl in Hok;
    try match type of Hok with ex _ => destruct Hok as [t Hok] end;
    try (rewrite Hok; simpl; split; [lia|congruence]).
  split; [|reflexivity]. destruct Hok; simpl; lia.
Qed.

(** ** The stored model *)

Lemma evolves_transcriber g g' :
  evolves P g g' -> transcriber g <> None -> transcriber g' <> None.
Proof.
  intros Hev. induction Hev; intros Hne; auto.
Qed.

Lemma transcriber_calls_app h acts :
  transcriber_calls (h ++ acts) = transcriber_calls h ++ transcriber_calls acts.
Proof. apply omap_app. Qed.

Lemma resume_model_ready pt o g g' acts pt' :
  (needs_model pt = true -> transcriber g <> None) ->
  resume pt o g = Some (g', acts, pt') ->
  (needs_model pt' = true -> transcriber g' <> None) /\
  (In (Enter Transcribe) acts -> transcriber_calls acts <> []).
Proof.
  intros Hm Hres. destruct pt; simpl in Hres, Hm; try discriminate;
    destruct o; simpl in Hres; try discriminate.
  all: revert Hres; unfold initModel_after_import, initModel_after_pipeline,
    processUrl_after_fetch, processUrl_after_arrayBuffer, processFile_after_initModel,
    processFile_after_decode, processFile_after_transcribe, decodeAudio_enter,
    transcribeAudio_enter, initModel_catch, transcribeAudio_catch, processFile_catch,
    processFile, after; simpl.
  all: split_tests; simpl; intros [= <- <- <-]; simpl.
  all: try (exfalso; apply Hm; [reflexivity|first [assumption|reflexivity]]).
  all: try match goal with
           | H : _ || negb (truthy_model None) = false |- _ =>
               simpl in H; rewrite orb_true_r in H; discriminate
           | H : _ || negb (truthy_text None) = false |- _ =>
               simpl in H; rewrite orb_true_r in H; discriminate
           end.
  all: split; [simpl; intros; try discriminate; try congruence; auto
              |intros Hin; in_cases Hin; simpl; discriminate].
Qed.

Lemma reachable_model_ready st :
  reachable st -> swept (fun _ => True) model_ready 0 st.
Proof.
  intros [es Hex].
  eapply (sweep_exec (fun _ => True) model_ready 0); eauto.
  - intros g g' rid pt h Hev _ [Hm Hc]. split; [|exact Hc].
    intros Hn. eapply evolves_transcriber; eauto.
  - intros g rid fd _ _. split; [discriminate|]. intros Hin. in_cases Hin.
  - intros g rid u _ _. split; [discriminate|]. intros Hin. in_cases Hin.
  - intros g rid pt h o g' acts pt' _ [Hm Hc] Hres.
    destruct (resume_model_ready _ _ _ _ _ _ Hm Hres) as [Hm' Hc'].
    split; [exact Hm'|]. intros Hin. rewrite transcriber_calls_app.
    apply in_app_or in Hin as [Hin|Hin].
    + specialize (Hc Hin). destruct (transcriber_calls h); [congruence|discriminate].
    + specialize (Hc' Hin). destruct (transcriber_calls acts); [congruence|].
      destruct (transcriber_calls h); discriminate.
  - intros g rid fd h data acts _ [Hm Hc] Hp. split; [exact Hm|].
    unfold progress_callback in Hp. destruct (cancelled g); [discriminate|].
    intros Hin. rewrite transcriber_calls_app.
    assert (Hh : In (Enter Transcribe) h).
    { apply in_app_or in Hin as [Hin|Hin]; [exact Hin|].
      destruct (String.eqb _ _); injection Hp as <-; in_cases Hin. }
    specialize (Hc Hh). destruct (transcriber_calls h); [congruence|discriminate].
  - split; [simpl; lia|]. split; [exact I|]. intros rid r Hl. discriminate.
Qed.

(** X7: Whenever a run is past the model stage (it awaits decodeAudioData or
    the transcriber) the global transcriber is set, and a run that has
    entered transcribeAudio has called the transcriber exactly once: never
    zero times (calling a missing transcriber does not happen) and never
    twice, also when the run fails or is cancelled afterwards. *)
Theorem transcribe_stage_calls_transcriber st rid r :
  reachable st -> runs st !! rid = Some r ->
  (needs_model (point r) = true -> transcriber (globals st) <> None) /\
  (In (Enter Transcribe) (hist r) -> length (transcriber_calls (hist r)) = 1%nat).
Proof.
  intros Hreach Hr.
  destruct (reachable_model_ready st Hreach) as (_ & _ & Hready).
  destruct (Hready _ _ Hr) as [Hmodel Hcalls]. split; [exact Hmodel|].
  intros Hin. specialize (Hcalls Hin).
  pose proof (reachable_runs_ok _ _ _ Hreach Hr) as Hok.
  unfold run_ok in Hok. rewrite <- transcriber_calls_digest in Hcalls |- *.
  destruct (point r); simpl in Hok;
    try match type of Hok with ex _ => destruct Hok as [t Hok] end;
    try (rewrite Hok in Hcalls |- *; simpl in Hcalls |- *;
         first [congruence | reflexivity]).
  destruct Hok; simpl in Hcalls |- *; first [congruence | reflexivity].
Qed.

(** ** The audio context *)

(** Case analysis on every test of a piece, simplifying on the way, and the
    branches no value of the tests can take. *)
Ltac split_tests_simpl :=
  repeat (simpl;
          match goal with
          | |- context [if ?b then _ else _] => destruct b eqn:?
          | |- context [match ?x with _ => _ end] =>
              lazymatch x with
              | context [match _ with _ => _ end] => fail
              | context [if _ then _ else _] => fail
              | _ => destruct x eqn:?
              end
          end).

Ltac impossible_test :=
  exfalso;
  match goal with
  | H : _ || true = false |- _ => rewrite orb_true_r in H; discriminate
  | H : _ || negb (truthy_model None) = false |- _ =>
      simpl in H; rewrite orb_true_r in H; discriminate
  | H : _ || negb (truthy_text None) = false |- _ =>
      simpl in H; rewrite orb_true_r in H; discriminate
  end.

Lemma resume_reuses_context c pt o g g' acts pt' :
  audioContext g = Some c ->
  resume pt o g = Some (g', acts, pt') ->
  forallb (reuses_context c) acts = true.
Proof.
  intros Hc Hres. destruct g as [tr ctx fl]. simpl in Hc. subst ctx.
  destruct pt; simpl in Hres; try discriminate;
    destruct o; simpl in Hres; try discriminate.
  all: revert Hres; unfold initModel_after_import, initModel_after_pipeline,
    processUrl_after_fetch, processUrl_after_arrayBuffer, processFile_after_initModel,
    processFile_after_decode, processFile_after_transcribe, decodeAudio_enter,
    transcribeAudio_enter, initModel_catch, transcribeAudio_catch, processFile_catch,
    processFile, after; simpl.
  all: split_tests_simpl; simpl; intros [= <- <- <-]; try impossible_test;
    simpl; rewrite ?Nat.eqb_refl; reflexivity.
Qed.

(** X8: Once the audio context exists it is never replaced and never built
    again: whatever happens afterwards the global still holds it, and every
    run, old or new, constructs no context and decodes only with that one. *)
Theorem audio_context_created_once es st st' c :
  audioContext (globals st) = Some c ->
  exec es st = Some st' ->
  audioContext (globals st') = Some c /\
  forall rid r', runs st' !! rid = Some r' ->
    exists extra, hist r' = past st rid ++ extra /\
                  forallb (reuses_context c) extra = true.
Proof.
  intros Hc Hex.
  assert (Hs : swept (fun g => audioContext g = Some c)
                     (since (reuses_context c) st) (length (runs st)) st').
  { eapply (sweep_exec (fun g => audioContext g = Some c)
                       (since (reuses_context c) st) (length (runs st)));
      [..|exact Hex].
    - intros g g' Hev. induction Hev; intros Hg; auto. congruence.
    - intros g g' rid pt h _ _ Hr. exact Hr.
    - intros g rid fd Hn _. exists initModel_enter. split; [|reflexivity].
      unfold past. rewrite (lookup_ge_None_2 _ _ Hn). reflexivity.
    - intros g rid u Hn _. eexists. split.
      + unfold past. rewrite (lookup_ge_None_2 _ _ Hn). reflexivity.
      + reflexivity.
    - intros g rid pt h o g' acts pt' Hg [extra [-> Hok]] Hres.
      exists (extra ++ acts). split; [symmetry; apply app_assoc|].
      rewrite forallb_app, Hok. simpl. eapply resume_reuses_context; eauto.
    - intros g rid fd h data acts Hg [extra [-> Hok]] Hp.
      exists (extra ++ acts). split; [symmetry; apply app_assoc|].
      rewrite forallb_app, Hok. simpl. unfold progress_callback in Hp.
      destruct (cancelled g); [discriminate|].
      destruct (String.eqb _ _); injection Hp as <-; reflexivity.
    - split; [lia|]. split; [exact Hc|]. intros rid r Hl.
      exists []. split; [|reflexivity]. unfold past. rewrite Hl, app_nil_r. reflexivity. }
  destruct Hs as (_ & Hg & Hr). split; [exact Hg|]. exact Hr.
Qed.

Lemma resume_without_context why pt o g g' acts pt' :
  newOfflineAudioContext P 1 44100 44100 = inl why ->
  audioContext g = None -> needs_model pt = false ->
  resume pt o g = Some (g', acts, pt') ->
  needs_model pt' = false /\ forallb (without_context why) acts = true.
Proof.
  intros Hctor Hc Hpt Hres. destruct g as [tr ctx fl]. simpl in Hc. subst ctx.
  destruct pt; simpl in Hres, Hpt; try discriminate;
    destruct o; simpl in Hres; try discriminate.
  all: revert Hres; unfold initModel_after_import, initModel_after_pipeline,
    processUrl_after_fetch, processUrl_after_arrayBuffer, processFile_after_initModel,
    processFile_after_decode, processFile_after_transcribe, decodeAudio_enter,
    transcribeAudio_enter, initModel_catch, transcribeAudio_catch, processFile_catch,
    processFile, after; simpl; rewrite ?Hctor; simpl.
  all: split_tests_simpl; simpl; intros [= <- <- <-]; try impossible_test;
    simpl; rewrite ?String.eqb_refl; split; reflexivity.
Qed.

Lemma reachable_without_context why st :
  newOfflineAudioContext P 1 44100 44100 = inl why ->
  reachable st ->
  swept (fun g => audioContext g = None) (stuck_before_decode why) 0 st.
Proof.
  intros Hctor [es Hex].
  eapply (sweep_exec (fun g => audioContext g = None) (stuck_before_decode why) 0);
    [..|exact Hex].
  - intros g g' Hev. induction Hev; intros Hg; auto. congruence.
  - intros g g' rid pt h _ _ Hr. exact Hr.
  - intros g rid fd _ _. split; reflexivity.
  - intros g rid u _ _. split; reflexivity.
  - intros g rid pt h o g' acts pt' Hg [Hpt Hok] Hres.
    destruct (resume_without_context why _ _ _ _ _ _ Hctor Hg Hpt Hres) as [Hpt' Hok'].
    split; [exact Hpt'|]. rewrite forallb_app, Hok, Hok'. reflexivity.
  - intros g rid fd h data acts Hg [Hpt Hok] Hp. split; [reflexivity|].
    rewrite forallb_app, Hok. simpl. unfold progress_callback in Hp.
    destruct (cancelled g); [discriminate|].
    destruct (String.eqb _ _); injection Hp as <-; reflexivity.
  - split; [simpl; lia|]. split; [reflexivity|]. intros rid r Hl. discriminate.
Qed.

(** X9: On a platform whose audio context constructor throws (message [why]), no
    run ever posts a result or reaches the transcriber, the context stays
    unset, and every run that enters decodeAudio posts exactly the error
    "Ошибка декодирования аудио: why". *)
Theorem no_context_no_result why st rid r :
  newOfflineAudioContext P 1 44100 44100 = inl why ->
  reachable st -> runs st !! rid = Some r ->
  audioContext (globals st) = None /\
  results (hist r) = [] /\
  transcriber_calls (hist r) = [] /\
  (In (Enter Decode) (hist r) ->
   point r = Done /\
   errors (hist r) = ["Ошибка декодирования аудио: " +:+ why]).
Proof.
  intros Hctor Hreach Hr.
  destruct (reachable_without_context why st Hctor Hreach) as (_ & Hg & Hruns).
  destruct (Hruns _ _ Hr) as [Hpt Hall].
  pose proof (reachable_runs_ok _ _ _ Hreach Hr) as Hok. unfold run_ok in Hok.
  assert (Hd : forall a, In a (digest (hist r)) -> without_context why a = true).
  { intros a Ha. apply List.filter_In in Ha as [Ha _].
    rewrite forallb_forall in Hall. auto. }
  split; [exact Hg|].
  rewrite <- results_digest, <- transcriber_calls_digest, <- errors_digest.
  assert (Hin : In (Enter Decode) (hist r) -> In (Enter Decode) (digest (hist r)))
    by (intros H; apply in_digest; [exact H|reflexivity]).
  destruct (point r); simpl in Hok, Hpt; try discriminate;
    try (rewrite Hok in Hin |- *; simpl;
         split; [reflexivity|split; [reflexivity|]];
         intros H; apply Hin in H; in_cases H; fail).
  destruct Hok as [|e0| |e0| |e0| |e0|t a|t a e0|t a text fd]; simpl in *;
    try (split; [reflexivity|split; [reflexivity|]];
         intros H; apply Hin in H; in_cases H; fail);
    try (specialize (Hd (Leave Decode None)); simpl in Hd;
         exfalso; assert (false = true) by (apply Hd; tauto); discriminate);
    try (specialize (Hd (Enter Transcribe)); simpl in Hd;
         exfalso; assert (false = true) by (apply Hd; tauto); discriminate).
  specialize (Hd (Leave Decode (Some e0))). simpl in Hd.
  assert (He : String.eqb e0 ("Ошибка декодирования аудио: " +:+ why) = true)
    by (apply Hd; tauto).
  apply String.eqb_eq in He. subst e0.
  split; [reflexivity|split; [reflexivity|]]. intros _. split; reflexivity.
Qed.

(** ** The order of the progress messages *)

Lemma progress_trail_app h acts :
  progress_trail (h ++ acts) = progress_trail h ++ progress_trail acts.
Proof. apply omap_app. Qed.

Ltac close_shape :=
  unfold progress; simpl; rewrite ?app_nil_r;
  repeat (rewrite <- app_assoc; simpl);
  first [ reflexivity
        | unfold progress_script; simpl; repeat (rewrite <- app_assoc; simpl);
          solve [ repeat first [ apply prefix_nil
                               | apply prefix_cons
                               | apply prefix_app
                               | apply prefix_app_r; reflexivity ] ] ].

Ltac shape :=
  first [ solve [close_shape]
        | solve [split; [reflexivity|close_shape]]
        | solve [exists 0%nat; close_shape]
        | match goal with
          | k : nat |- _ => solve [exists k; close_shape]
          end ].

Lemma came_from_url_app h acts :
  came_from_url (h ++ acts) = came_from_url h || came_from_url acts.
Proof. apply existsb_app. Qed.

Lemma resume_no_fetch pt o g g' acts pt' :
  resume pt o g = Some (g', acts, pt') -> came_from_url acts = false.
Proof.
  intros Hres. destruct pt; simpl in Hres; try discriminate;
    destruct o; simpl in Hres; try discriminate.
  all: revert Hres; unfold initModel_after_import, initModel_after_pipeline,
    processUrl_after_fetch, processUrl_after_arrayBuffer, processFile_after_initModel,
    processFile_after_decode, processFile_after_transcribe, decodeAudio_enter,
    transcribeAudio_enter, initModel_catch, transcribeAudio_catch, processFile_catch,
    processFile, after; simpl.
  all: split_tests; simpl; intros [= <- <- <-]; reflexivity.
Qed.

Lemma resume_progress b pt o g g' acts pt' t :
  progress_at b pt t ->
  resume pt o g = Some (g', acts, pt') ->
  progress_at b pt' (t ++ progress_trail acts).
Proof.
  intros Hsh Hres.
  destruct pt; simpl in Hsh, Hres; try discriminate;
    repeat match type of Hsh with
           | ex _ => destruct Hsh as [? Hsh]
           | _ /\ _ => destruct Hsh as [? Hsh]
           end; subst;
    destruct o; simpl in Hres; try discriminate.
  all: revert Hres; unfold initModel_after_import, initModel_after_pipeline,
    processUrl_after_fetch, processUrl_after_arrayBuffer, processFile_after_initModel,
    processFile_after_decode, processFile_after_transcribe, decodeAudio_enter,
    transcribeAudio_enter, initModel_catch, transcribeAudio_catch, processFile_catch,
    processFile, after; simpl.
  all: split_tests_simpl; simpl; intros [= <- <- <-]; try impossible_test.
  all: shape.
Qed.

Lemma reachable_progress st :
  reachable st -> swept (fun _ => True) progress_on_script 0 st.
Proof.
  intros [es Hex].
  eapply (sweep_exec (fun _ => True) progress_on_script 0); [..|exact Hex].
  - auto.
  - intros g g' rid pt h _ _ Hr. exact Hr.
  - intros g rid fd _ _. reflexivity.
  - intros g rid u _ _. split; reflexivity.
  - intros g rid pt h o g' acts pt' _ Hr Hres. unfold progress_on_script in *.
    rewrite progress_trail_app, came_from_url_app,
      (resume_no_fetch _ _ _ _ _ _ Hres), orb_false_r.
    eapply resume_progress; eauto.
  - intros g rid fd h data acts _ Hr Hp. unfold progress_on_script in *.
    unfold progress_callback in Hp. destruct (cancelled g); [discriminate|].
    rewrite progress_trail_app, came_from_url_app. destruct Hr as [k Hr]. rewrite Hr.
    destruct (String.eqb _ _); injection Hp as <-.
    + change (came_from_url [progress "model" "active" _]) with false.
      rewrite orb_false_r. exists (S k). rewrite <- app_assoc. f_equal.
      change (progress_trail [progress "model" "active" _])
        with [("model", "active")].
      rewrite <- replicate_cons_app. reflexivity.
    + change (came_from_url []) with false.
      change (progress_trail (@nil (@Act P))) with (@nil (string * string)).
      rewrite orb_false_r, app_nil_r. exists k. reflexivity.
  - split; [simpl; lia|]. split; [exact I|]. intros rid r Hl. discriminate.
Qed.

(** X10: The progress messages of a run come in the order of the pipeline: at
    any moment they are an initial part of: the download notice, present
    exactly when the run came in through processUrl (it called fetch),
    then "model active" one or more times, "model completed", "decode
    active", "decode completed", "transcribe active", "transcribe completed".
    So no stage is reported completed before it was reported active, none is
    reported completed twice, and no stage is reported before the one ahead
    of it completed. *)
Theorem progress_in_order st rid r :
  reachable st -> runs st !! rid = Some r ->
  exists k,
    progress_trail (hist r) `prefix_of` progress_script (came_from_url (hist r)) k.
Proof.
  intros Hreach Hr.
  destruct (reachable_progress st Hreach) as (_ & _ & Hruns).
  specialize (Hruns _ _ Hr). unfold progress_on_script in Hruns.
  destruct (point r); simpl in Hruns;
    repeat match type of Hruns with
           | ex _ => destruct Hruns as [? Hruns]
           | _ /\ _ => destruct Hruns as [Hb Hruns]; rewrite Hb
           end;
    try (rewrite Hruns; shape).
  eauto.
Qed.

(** ** Edge cases of single turns *)

(** X11: A transcription that comes back empty ends the run without a word: the
    stage is reported completed, and the run has posted neither a result
    nor an error. *)
Theorem empty_text_is_silent st st' rid :
  reachable st ->
  handle (Settle rid (OResult "")) st = Some st' ->
  out st' = out st ++ [MProgress "transcribe" "completed" "Текст распознан"] /\
  exists r', runs st' !! rid = Some r' /\ point r' = Done /\
             results (hist r') = [] /\ errors (hist r') = [].
Proof.
  intros Hreach Hh. simpl in Hh.
  destruct (runs st !! rid) as [r|] eqn:Hr; [|discriminate].
  pose proof (reachable_runs_ok _ _ _ Hreach Hr) as Hok. unfold run_ok in Hok.
  destruct (point r) eqn:Hpt; simpl in Hh; try discriminate.
  unfold processFile_after_transcribe, after in Hh. simpl in Hh.
  rewrite orb_true_r in Hh. injection Hh as <-. simpl.
  split; [reflexivity|].
  eexists. split; [apply list_lookup_insert_eq; eapply lookup_lt_Some; eauto|].
  split; [reflexivity|]. simpl. destruct Hok as [t Hok].
  unfold results, errors. rewrite !omap_app.
  fold (results (hist r)). fold (errors (hist r)).
  rewrite <- results_digest, <- errors_digest, Hok. split; reflexivity.
Qed.

(** X12: A progress report of the library other than "downloading", while the
    flag is clear, changes nothing at all. *)
Theorem other_progress_ignored st st' rid data :
  cancelled (globals st) = false ->
  String.eqb (pd_status data) "downloading" = false ->
  handle (Progress rid data) st = Some st' ->
  st' = st.
Proof.
  intros Hc Hs Hh. simpl in Hh.
  destruct (runs st !! rid) as [r|] eqn:Hr; [|discriminate].
  destruct (point r) eqn:Hpt; simpl in Hh; try discriminate.
  unfold progress_callback in Hh. rewrite Hc, Hs in Hh. injection Hh as <-.
  destruct st as [g ou rs]. simpl in *. f_equal.
  - apply app_nil_r.
  - apply list_insert_id. rewrite app_nil_r, <- Hpt. destruct r; exact Hr.
Qed.

(** X13: A download answered with a status that is not ok ends the run at once:
    one error message with the status, no body read, no stage entered, the
    globals untouched; and this whether or not the run had been cancelled
    meanwhile. *)
Theorem failed_download_reported st st' rid r u resp :
  reachable st -> runs st !! rid = Some r -> point r = AtFetch u ->
  ok resp = false ->
  handle (Settle rid (OResponse resp)) st = Some st' ->
  globals st' = globals st /\
  out st' = out st ++ [MError ("Не удалось загрузить файл: " +:+ num_str P (status resp))] /\
  exists r', runs st' !! rid = Some r' /\ point r' = Done /\
    hist r' = hist r ++
              [Post (MError ("Не удалось загрузить файл: " +:+ num_str P (status resp)))] /\
    trail (hist r') = [].
Proof.
  intros Hreach Hr Hpt Hok Hh. simpl in Hh. rewrite Hr, Hpt in Hh. simpl in Hh.
  rewrite Hok in Hh. simpl in Hh. injection Hh as <-. simpl.
  split; [reflexivity|]. split; [reflexivity|].
  eexists. split; [apply list_lookup_insert_eq; eapply lookup_lt_Some; eauto|].
  split; [reflexivity|]. split; [reflexivity|]. simpl.
  pose proof (reachable_runs_ok _ _ _ Hreach Hr) as Hinv. unfold run_ok in Hinv.
  rewrite Hpt in Hinv. simpl in Hinv.
  unfold trail. rewrite omap_app. fold (trail (hist r)).
  rewrite <- trail_digest, Hinv. reflexivity.
Qed.

(** ** Pongs and logs *)

Lemma resume_from_run pt o g g' acts pt' :
  resume pt o g = Some (g', acts, pt') -> forallb from_run (posts acts) = true.
Proof.
  intros Hres. destruct pt; simpl in Hres; try discriminate;
    destruct o; simpl in Hres; try discriminate.
  all: revert Hres; unfold initModel_after_import, initModel_after_pipeline,
    processUrl_after_fetch, processUrl_after_arrayBuffer, processFile_after_initModel,
    processFile_after_decode, processFile_after_transcribe, decodeAudio_enter,
    transcribeAudio_enter, initModel_catch, transcribeAudio_catch, processFile_catch,
    processFile, after; simpl.
  all: split_tests; simpl; intros [= <- <- <-]; reflexivity.
Qed.

Lemma callback_from_run pt data g g' acts pt' :
  callback pt data g = Some (g', acts, pt') -> forallb from_run (posts acts) = true.
Proof.
  intros Hcb.
  destruct (callback_cases _ _ _ _ _ _ Hcb) as [fd [_ [(Hp & _ & _)|(_ & Hres)]]].
  - unfold progress_callback in Hp. destruct (cancelled g); [discriminate|].
    destruct (String.eqb _ _); injection Hp as <-; reflexivity.
  - eapply resume_from_run; eauto.
Qed.

Lemma count_from_run (p : @OutMsg P -> bool) (l new : list (@OutMsg P)) :
  (forall m, from_run m = true -> p m = false) ->
  forallb from_run new = true ->
  length (List.filter p (l ++ new)) = length (List.filter p l).
Proof.
  intros Hp Hnew. rewrite List.filter_app, length_app.
  assert (Hnil : List.filter p new = []).
  { induction new as [|m new IH]; [reflexivity|]. simpl in Hnew |- *.
    apply andb_prop in Hnew as [Hm Hnew]. rewrite (Hp m Hm). auto. }
  rewrite Hnil. simpl. lia.
Qed.

Lemma turn_counts e st st' :
  handle e st = Some st' ->
  count_out is_pong st' = (count_out is_pong st + deliveries "ping" [e])%nat /\
  count_out is_log st' = (count_out is_log st + deliveries "cancel" [e])%nat.
Proof.
  intros Hh. apply handle_turn in Hh. unfold count_out, deliveries.
  assert (Hpong : forall m : @OutMsg P, from_run m = true -> is_pong m = false)
    by (intros []; unfold from_run; simpl; intros; congruence).
  assert (Hlog : forall m : @OutMsg P, from_run m = true -> is_log m = false)
    by (intros []; unfold from_run; simpl; intros; congruence).
  destruct Hh as [m fd st E _|m u st E _|m st E|m st E|m st E1 E2 E3 E4
                 |rid o r [[g' acts] pt'] st Hl Hres
                 |rid data r [[g' acts] pt'] st Hl Hcb|msg st].
  6:{ unfold advance; cbn [out]. rewrite !count_from_run; eauto using resume_from_run. }
  6:{ unfold advance; cbn [out]. rewrite !count_from_run; eauto using callback_from_run. }
  all: simpl; rewrite ?E; simpl;
    rewrite ?(proj2 (String.eqb_neq _ _) E3), ?(proj2 (String.eqb_neq _ _) E4);
    simpl; rewrite ?List.filter_app, ?length_app; simpl; split; lia.
Qed.

(** X14: The worker answers every ping with exactly one pong and every cancel
    with exactly one log, and posts no pong and no log for any other
    reason. *)
Theorem pongs_and_logs_counted es st st' :
  exec es st = Some st' ->
  count_out is_pong st' = (count_out is_pong st + deliveries "ping" es)%nat /\
  count_out is_log st' = (count_out is_log st + deliveries "cancel" es)%nat.
Proof.
  revert st. induction es as [|e es IH]; intros st Hex; simpl in Hex.
  - injection Hex as <-. unfold deliveries. simpl. lia.
  - destruct (handle e st) as [st1|] eqn:Hh; [|discriminate].
    destruct (turn_counts _ _ _ Hh) as [Hp Hl].
    destruct (IH _ Hex) as [Hp' Hl'].
    rewrite Hp', Hl', Hp, Hl. unfold deliveries. simpl.
    destruct e as [m| | |]; simpl; try lia.
    destruct (String.eqb (type m) "ping"), (String.eqb (type m) "cancel");
      simpl; lia.
Qed.

(** ** Requests that nothing disturbs *)

Lemma exec_settle_newest g ou (rs : list (@Run P)) r o g' acts pt' es :
  resume (point r) o g = Some (g', acts, pt') ->
  exec (Settle (length rs) o :: es) {| globals := g; out := ou; runs := rs ++ [r] |}
  = exec es {| globals := g'; out := ou ++ posts acts;
               runs := rs ++ [{| point := pt'; hist := hist r ++ acts |}] |}.
Proof.
  intros Hres. cbn [exec handle runs globals].
  rewrite list_lookup_middle by reflexivity. rewrite Hres.
  unfold advance. cbn [runs out].
  rewrite insert_app_r_alt by lia. rewrite Nat.sub_diag. reflexivity.
Qed.

(** X15: A file request that nothing disturbs succeeds: when the audio context
    is there or can be built and the transcription is not empty, the worker
    posts the six progress messages and the result with the text, the
    figures of the decoded buffer and the name and size of the file, and it
    keeps the model and the context. *)
Theorem undisturbed_file_succeeds st fd t a text c :
  context_available P (globals st) c -> text <> "" ->
  exists st',
    exec (undisturbed_file (length (runs st)) fd t a text) st = Some st' /\
    out st' = out st ++ success_messages a text (name fd) (size fd) /\
    globals st' = {| transcriber := Some t; audioContext := Some c; cancelled := false |}.
Proof.
  intros Hctx Hne. apply String.eqb_neq in Hne.
  destruct st as [[tr ctx fl] ou rs]. unfold context_available in Hctx. simpl in Hctx.
  unfold undisturbed_file. cbn [runs].
  change (exec (Deliver ?m :: ?es) ?s) with (exec es (spawn (processFile fd (globals s)) s)).
  unfold spawn, processFile. cbn [globals out runs].
  erewrite exec_settle_newest by reflexivity.
  destruct Hctx as [->|[-> Hn]].
  - erewrite exec_settle_newest by reflexivity.
    erewrite exec_settle_newest by reflexivity.
    erewrite exec_settle_newest by (simpl; rewrite Hne; reflexivity).
    eexists. split; [reflexivity|]. split; [|reflexivity].
    cbn [out]. rewrite <- !app_assoc. reflexivity.
  - erewrite exec_settle_newest
      by (simpl; unfold processFile_after_initModel, decodeAudio_enter; simpl;
          rewrite Hn; reflexivity).
    erewrite exec_settle_newest by reflexivity.
    erewrite exec_settle_newest by (simpl; rewrite Hne; reflexivity).
    eexists. split; [reflexivity|]. split; [|reflexivity].
    cbn [out]. rewrite <- !app_assoc. reflexivity.
Qed.

(** X16: A URL request that nothing disturbs succeeds likewise, after the
    download notice; the file of the result is named by the last part of the
    URL and sized by the length of the downloaded body. *)
Theorem undisturbed_url_succeeds st u resp b t a text c :
  context_available P (globals st) c -> text <> "" -> ok resp = true ->
  exists st',
    exec (undisturbed_url (length (runs st)) u resp b t a text) st = Some st' /\
    out st' = out st ++
              MProgress "decode" "active" "Загрузка аудио..." ::
              success_messages a text (url_file_name u) (byteLength b) /\
    globals st' = {| transcriber := Some t; audioContext := Some c; cancelled := false |}.
Proof.
  intros Hctx Hne Hok. apply String.eqb_neq in Hne.
  destruct st as [[tr ctx fl] ou rs]. unfold context_available in Hctx. simpl in Hctx.
  unfold undisturbed_url. cbn [runs].
  change (exec (Deliver ?m :: ?es) ?s) with (exec es (spawn (processUrl u (globals s)) s)).
  unfold spawn, processUrl. cbn [globals out runs].
  erewrite exec_settle_newest by (simpl; rewrite Hok; reflexivity).
  erewrite exec_settle_newest by reflexivity.
  erewrite exec_settle_newest by reflexivity.
  destruct Hctx as [->|[-> Hn]].
  - erewrite exec_settle_newest by reflexivity.
    erewrite exec_settle_newest by reflexivity.
    erewrite exec_settle_newest by (simpl; rewrite Hne; reflexivity).
    eexists. split; [reflexivity|]. split; [|reflexivity].
    cbn [out]. rewrite <- !app_assoc. reflexivity.
  - erewrite exec_settle_newest
      by (simpl; unfold processFile_after_initModel, decodeAudio_enter; simpl;
          rewrite Hn; reflexivity).
    erewrite exec_settle_newest by reflexivity.
    erewrite exec_settle_newest by (simpl; rewrite Hne; reflexivity).
    eexists. split; [reflexivity|]. split; [|reflexivity].
    cbn [out]. rewrite <- !app_assoc. reflexivity.
Qed.

(** ** The order of the stages *)

Lemma trail_app h acts : trail (h ++ acts) = trail h ++ trail acts.
Proof. apply omap_app. Qed.

Lemma errors_app h acts : errors (h ++ acts) = errors h ++ errors acts.
Proof. apply omap_app. Qed.

(** The turn that resumes a run. *)
Lemma settle_runs st rid r o p :
  runs st !! rid = Some r ->
  resume (point r) o (globals st) = Some p ->
  exists st' r',
    handle (Settle rid o) st = Some st' /\
    runs st' !! rid = Some r' /\
    point r' = snd p /\
    hist r' = hist r ++ snd (fst p) /\
    out st' = out st ++ posts (snd (fst p)) /\
    globals st' = fst (fst p).
Proof.
  intros Hr Hres. destruct p as [[g' acts] pt']. simpl. rewrite Hr, Hres.
  eexists _, _. split; [reflexivity|]. simpl.
  split; [apply list_lookup_insert_eq; eapply lookup_lt_Some; eauto|]. auto.
Qed.

(** C1: the three steps run in the order initModel, decodeAudio,
    transcribeAudio, each one finished before the next begins.  A file
    request begins with initModel and awaits it.  For every run: the stage
    boundaries crossed so far are an initial part of the fixed order; a run
    that awaits inside a stage has crossed exactly the boundaries up to that
    stage's entry; initModel awaits the import and then the pipeline;
    decodeAudio is entered in the very turn in which initModel returned the
    model (flag clear), transcribeAudio in the very turn in which
    decodeAudio returned the buffer (flag clear), and the run ends in the
    turn in which transcribeAudio returned; a URL run enters initModel in the
    turn in which the body arrived (flag clear). *)
Theorem stages_in_order st :
  reachable st ->
  (forall m fd, type m = "transcribe" -> file m = Some fd ->
     exists st' r',
       handle (Deliver m) st = Some st' /\
       runs st' !! length (runs st) = Some r' /\
       point r' = AtImport fd /\ trail (hist r') = [(Model, true)]) /\
  forall rid r, runs st !! rid = Some r ->
    let leads (o : Outcome) (pt' : Point) (t : list (Stage * bool)) :=
      exists st' r',
        handle (Settle rid o) st = Some st' /\
        runs st' !! rid = Some r' /\ point r' = pt' /\ trail (hist r') = t in
    trail (hist r) `prefix_of` pipeline_order /\
    match point r with
    | AtFetch _ => trail (hist r) = []
    | AtArrayBuffer u _ =>
        trail (hist r) = [] /\
        (cancelled (globals st) = false ->
         forall b, leads (OArrayBuffer b)
                     (AtImport {| name := url_file_name u;
                                  size := byteLength b;
                                  arrayBuffer := b |})
                     [(Model, true)])
    | AtImport fd =>
        trail (hist r) = [(Model, true)] /\
        leads OModule (AtPipeline fd) [(Model, true)]
    | AtPipeline fd =>
        trail (hist r) = [(Model, true)] /\
        (cancelled (globals st) = false ->
         forall t c, context_available P (globals st) c ->
           leads (OTranscriber t) (AtDecode fd)
             [(Model, true); (Model, false); (Decode, true)])
    | AtDecode fd =>
        trail (hist r) = [(Model, true); (Model, false); (Decode, true)] /\
        (cancelled (globals st) = false ->
         forall a, leads (OAudio a) (AtTranscribe fd a)
                     [(Model, true); (Model, false); (Decode, true);
                      (Decode, false); (Transcribe, true)])
    | AtTranscribe fd a =>
        trail (hist r) = [(Model, true); (Model, false); (Decode, true);
                          (Decode, false); (Transcribe, true)] /\
        forall text, leads (OResult text) Done pipeline_order
    | Done => True
    end.
Proof.
  intros Hreach. split.
  { intros m fd Hty Hf. eexists _, _. split.
    - apply turn_handle. constructor; eassumption.
    - simpl. split.
      + rewrite lookup_app_r by lia. rewrite Nat.sub_diag. reflexivity.
      + split; reflexivity. }
  intros rid r Hr leads. split; [eapply trail_prefix; eauto|].
  pose proof (trail_at st rid r Hreach Hr) as Hat.
  destruct (reachable_model_ready st Hreach) as (_ & _ & Hready).
  destruct (Hready _ _ Hr) as [Hmodel _].
  destruct (point r) as [fd|fd|fd|fd a|u|u resp|] eqn:Hpt; try exact Hat; try exact I.
  - split; [exact Hat|].
    edestruct (settle_runs st rid r OModule) as (st' & r' & Hh & Hl & Hp & Hhist & _);
      [exact Hr|rewrite Hpt; reflexivity|].
    exists st', r'. repeat split; try assumption.
    rewrite Hhist, trail_app, Hat. reflexivity.
  - split; [exact Hat|]. intros Hc t c Hctx.
    assert (Hres : exists acts g',
               resume (AtPipeline fd) (OTranscriber t) (globals st)
               = Some (g', acts, AtDecode fd) /\
               trail acts = [(Model, false); (Decode, true)]).
    { simpl. unfold processFile_after_initModel, decodeAudio_enter, after. simpl.
      rewrite Hc. simpl. destruct Hctx as [Hctx|[Hctx Hn]]; rewrite Hctx.
      - eexists _, _. split; reflexivity.
      - rewrite Hn. eexists _, _. split; reflexivity. }
    destruct Hres as (acts & g' & Hres & Htr).
    edestruct (settle_runs st rid r (OTranscriber t)) as (st' & r' & Hh & Hl & Hp & Hhist & _);
      [exact Hr|rewrite Hpt; exact Hres|].
    exists st', r'. repeat split; try assumption.
    simpl in Hhist. rewrite Hhist, trail_app, Hat, Htr. reflexivity.
  - destruct Hat as [Hat _]. split; [exact Hat|]. intros Hc a.
    destruct (transcriber (globals st)) as [t|] eqn:Ht;
      [|exfalso; apply Hmodel; reflexivity].
    edestruct (settle_runs st rid r (OAudio a)) as (st' & r' & Hh & Hl & Hp & Hhist & _);
      [exact Hr
      |rewrite Hpt; simpl; unfold processFile_after_decode, transcribeAudio_enter, after;
       rewrite Hc, Ht; reflexivity|].
    exists st', r'. repeat split; try assumption.
    simpl in Hhist. rewrite Hhist, trail_app, Hat. reflexivity.
  - split; [exact Hat|]. intros text.
    assert (Hres : exists acts,
               resume (AtTranscribe fd a) (OResult text) (globals st)
               = Some (globals st, acts, Done) /\
               trail acts = [(Transcribe, false)]).
    { simpl. unfold processFile_after_transcribe, after. simpl.
      destruct (cancelled (globals st) || negb (negb (String.eqb text "")));
        eexists; split; reflexivity. }
    destruct Hres as (acts & Hres & Htr).
    edestruct (settle_runs st rid r (OResult text)) as (st' & r' & Hh & Hl & Hp & Hhist & _);
      [exact Hr|rewrite Hpt; exact Hres|].
    exists st', r'. repeat split; try assumption.
    simpl in Hhist. rewrite Hhist, trail_app, Hat, Htr. reflexivity.
  - split; [exact Hat|]. intros Hc b.
    edestruct (settle_runs st rid r (OArrayBuffer b)) as (st' & r' & Hh & Hl & Hp & Hhist & _);
      [exact Hr|rewrite Hpt; simpl; rewrite Hc; reflexivity|].
    exists st', r'. repeat split; try assumption.
    simpl in Hhist. rewrite Hhist, trail_app, Hat. reflexivity.
Qed.

(** ** Errors *)

(** C4: every failure of a step is forwarded.  When the awaited call of a
    run is rejected with message [m], the worker handles it in that turn
    (nothing escapes) and posts exactly one message of type error, whose data
    is the message of the error the step throws: the prefixed message for a
    failed import, a failed decoding and a failed transcription, [m] itself
    for a failed pipeline, a failed download and a failed body; a download
    answered with a status that is not ok and a context constructor that
    throws are forwarded likewise.  The run has then ended and that error is
    the only one it ever posted.  The one exception is the message
    'Cancelled' in initModel and transcribeAudio, which stands for the
    cancellation.  A run never posts more than one error and only when it
    ends, and self.onerror answers with one message of type error. *)
Theorem stage_error_forwarded st m :
  reachable st ->
  (exists d, handle (Uncaught m) st
             = Some {| globals := globals st; out := out st ++ [MError d];
                       runs := runs st |}) /\
  forall rid r, runs st !! rid = Some r ->
    let forwarded (o : Outcome) (data : string) :=
      exists st' r' new,
        handle (Settle rid o) st = Some st' /\
        out st' = out st ++ new /\
        List.filter is_error new = [MError data] /\
        runs st' !! rid = Some r' /\ point r' = Done /\
        errors (hist r') = [data] in
    (length (errors (hist r)) <= 1)%nat /\
    (errors (hist r) <> [] -> point r = Done) /\
    match point r with
    | AtImport _ =>
        forwarded (ORejected m) ("Не удалось загрузить transformers.js: " +:+ m)
    | AtPipeline _ =>
        (m <> "Cancelled" -> forwarded (ORejected m) m) /\
        (forall t why,
           cancelled (globals st) = false ->
           audioContext (globals st) = None ->
           newOfflineAudioContext P 1 44100 44100 = inl why ->
           forwarded (OTranscriber t) ("Ошибка декодирования аудио: " +:+ why))
    | AtDecode _ =>
        forwarded (ORejected m) ("Ошибка декодирования аудио: " +:+ m)
    | AtTranscribe _ _ =>
        m <> "Cancelled" ->
        forwarded (ORejected m) ("Ошибка распознавания: " +:+ m)
    | AtFetch _ =>
        forwarded (ORejected m) m /\
        (forall resp,
           ok resp = false ->
           forwarded (OResponse resp)
             ("Не удалось загрузить файл: " +:+ num_str P (status resp)))
    | AtArrayBuffer _ _ => forwarded (ORejected m) m
    | Done => True
    end.
Proof.
  intros Hreach. split; [exists m; reflexivity|].
  intros rid r Hr forwarded.
  destruct (errors_of_run st rid r Hreach Hr) as [Hle Hdone].
  split; [exact Hle|]. split; [exact Hdone|].
  assert (Hnone : point r <> Done -> errors (hist r) = []).
  { intros Hne. destruct (suspended_run st rid r Hreach Hr); [assumption|contradiction]. }
  assert (Hfwd : forall o g' acts data,
             resume (point r) o (globals st) = Some (g', acts, Done) ->
             List.filter is_error (posts acts) = [MError data] ->
             errors acts = [data] ->
             point r <> Done ->
             forwarded o data).
  { intros o g' acts data Hres Hposts Herr Hne.
    destruct (settle_runs st rid r o _ Hr Hres)
      as (st' & r' & Hh & Hl & Hp & Hhist & Hout & _).
    exists st', r', (posts acts). simpl in *.
    repeat split; try assumption.
    rewrite Hhist, errors_app, (Hnone Hne), Herr. reflexivity. }
  destruct (point r) as [fd|fd|fd|fd a|u|u resp|] eqn:Hpt; try exact I.
  - eapply Hfwd; [reflexivity|reflexivity|reflexivity|discriminate].
  - split.
    + intros Hm. apply String.eqb_neq in Hm.
      eapply Hfwd;
        [simpl; unfold initModel_catch; rewrite Hm; reflexivity
        |reflexivity|reflexivity|discriminate].
    + intros t why Hc Hctx Hn.
      eapply Hfwd;
        [simpl; unfold processFile_after_initModel, decodeAudio_enter, after; simpl;
         rewrite Hc, Hctx, Hn; reflexivity
        |reflexivity|reflexivity|discriminate].
  - eapply Hfwd; [reflexivity|reflexivity|reflexivity|discriminate].
  - intros Hm. apply String.eqb_neq in Hm.
    eapply Hfwd;
      [simpl; unfold transcribeAudio_catch; rewrite Hm; reflexivity
      |reflexivity|reflexivity|discriminate].
  - split.
    + eapply Hfwd; [reflexivity|reflexivity|reflexivity|discriminate].
    + intros resp Hok.
      eapply Hfwd;
        [simpl; rewrite Hok; reflexivity|reflexivity|reflexivity|discriminate].
  - eapply Hfwd; [reflexivity|reflexivity|reflexivity|discriminate].
Qed.

(** ** The call of the transcriber *)

Lemma resume_keeps_call rid0 x a g rid pt h o g' acts pt' :
  keeps_call rid0 x a g rid pt h ->
  resume pt o g = Some (g', acts, pt') ->
  keeps_call rid0 x a g' rid pt' (h ++ acts).
Proof.
  intros Hk Hres Hid. destruct (Hk Hid) as (Hcalls & Hpt & Hfig).
  destruct Hpt as [->|[fd ->]]; [discriminate|].
  assert (Hacts : transcriber_calls acts = [] /\ pt' = Done /\
                  forall text d sr k nm sz,
                    In (Post (MResult text d sr k nm sz)) acts ->
                    d = duration a /\ sr = sampleRate a /\ k = numberOfChannels a).
  { destruct o; simpl in Hres; try discriminate; revert Hres;
      unfold processFile_after_transcribe, transcribeAudio_catch, processFile_catch,
        after; simpl;
      split_tests; simpl; intros [= <- <- <-];
      (split; [reflexivity|]; split; [reflexivity|]);
      intros text' d sr k nm sz Hin; in_cases Hin.
    injection Hin as _ <- <- <- _ _. auto. }
  destruct Hacts as (Hnone & -> & Hnew).
  split; [rewrite transcriber_calls_app, Hcalls, Hnone; reflexivity|].
  split; [left; reflexivity|].
  intros text d sr k nm sz Hin. apply in_app_or in Hin as [Hin|Hin]; eauto.
Qed.

(** C6: the transcriber is called exactly once per run, on the first
    channel of the buffer the run decoded, with that buffer's own sample
    rate.  When decodeAudioData of a run answers with a buffer [a] (flag
    clear), the run has not called the transcriber before, the model is
    there, and from that turn on, whatever happens, the transcriber calls of
    the run are exactly one: the stored transcriber on [a.getChannelData(0)]
    with chunk 30, stride 5, language ru, task transcribe and
    [sampling_rate = a.sampleRate]; and a result the run posts carries the
    duration, sample rate and channel count of the same [a]. *)
Theorem transcriber_called_once st rid r fd a :
  reachable st -> runs st !! rid = Some r -> point r = AtDecode fd ->
  cancelled (globals st) = false ->
  exists t st1,
    transcriber (globals st) = Some t /\
    transcriber_calls (hist r) = [] /\
    handle (Settle rid (OAudio a)) st = Some st1 /\
    forall es st2 r2,
      exec es st1 = Some st2 -> runs st2 !! rid = Some r2 ->
      transcriber_calls (hist r2)
      = [(t, getChannelData a 0,
          {| chunk_length_s := 30;
             stride_length_s := 5;
             language := "ru";
             task := "transcribe";
             sampling_rate := sampleRate a |})] /\
      forall text d sr k nm sz,
        In (Post (MResult text d sr k nm sz)) (hist r2) ->
        d = duration a /\ sr = sampleRate a /\ k = numberOfChannels a.
Proof.
  intros Hreach Hr Hpt Hc.
  destruct (reachable_model_ready st Hreach) as (_ & _ & Hready).
  destruct (Hready _ _ Hr) as [Hmodel _]. rewrite Hpt in Hmodel.
  destruct (transcriber (globals st)) as [t|] eqn:Ht;
    [|exfalso; apply Hmodel; reflexivity].
  pose proof (trail_at st rid r Hreach Hr) as Hat. rewrite Hpt in Hat.
  destruct Hat as [_ Hnocall].
  pose proof (reachable_runs_ok _ _ _ Hreach Hr) as Hok. unfold run_ok in Hok.
  rewrite Hpt in Hok. simpl in Hok.
  edestruct (settle_runs st rid r (OAudio a))
    as (st1 & r1 & Hh & Hl & Hp & Hhist & _);
    [exact Hr
    |rewrite Hpt; simpl; unfold processFile_after_decode, transcribeAudio_enter, after;
     rewrite Hc, Ht; reflexivity|].
  simpl in Hp, Hhist.
  exists t, st1. split; [reflexivity|]. split; [exact Hnocall|]. split; [exact Hh|].
  intros es st2 r2 Hex Hl2.
  set (x := (t, getChannelData a 0,
             {| chunk_length_s := 30; stride_length_s := 5; language := "ru";
                task := "transcribe"; sampling_rate := sampleRate a |})).
  assert (Hlt : (rid < length (runs st1))%nat) by (eapply lookup_lt_Some; eauto).
  assert (Hs : swept (fun _ => True) (keeps_call rid x a) (length (runs st1)) st2).
  { eapply (sweep_exec (fun _ => True) (keeps_call rid x a) (length (runs st1)));
      [..|exact Hex].
    - auto.
    - intros g g' rid' pt h _ _ Hk. exact Hk.
    - intros g rid' fd' Hn _ Hid. lia.
    - intros g rid' u Hn _ Hid. lia.
    - intros g rid' pt h o g' acts pt' _ Hk Hres.
      eapply resume_keeps_call; eauto.
    - intros g rid' fd' h data acts _ Hk Hp' Hid.
      destruct (Hk Hid) as (_ & [Hbad|[? Hbad]] & _); discriminate.
    - split; [lia|]. split; [exact I|]. intros rid' r' Hl' Hid. subst rid'.
      rewrite Hl in Hl'. injection Hl' as <-. rewrite Hp, Hhist.
      split; [rewrite transcriber_calls_app, Hnocall; reflexivity|].
      split; [right; eauto|].
      intros text d sr k nm sz Hin. apply in_app_or in Hin as [Hin|Hin].
      + apply in_digest in Hin; [|reflexivity]. rewrite Hok in Hin. in_cases Hin.
      + in_cases Hin. }
  destruct Hs as (_ & _ & Hruns).
  destruct (Hruns _ _ Hl2 eq_refl) as (Hcalls & _ & Hfig).
  split; [exact Hcalls|exact Hfig].
Qed.

End Facts.

(** * The properties on concrete executions *)

Import Demo.

Lemma exec_state_from st es :
  possible st es = true -> exec es st = Some (state_from st es).
Proof.
  unfold possible, state_from. destruct (exec es st); [reflexivity|discriminate].
Qed.

Lemma handle_state_from st e :
  possible st [e] = true -> handle e st = Some (state_from st [e]).
Proof.
  intros H. apply exec_state_from in H. simpl in H.
  destruct (handle e st); [exact H|discriminate].
Qed.

Lemma reachable_after es :
  possible initial es = true -> reachable (state_after es).
Proof. intros H. exists es. apply (exec_state_from initial es H). Qed.

Lemma first_run_lookup st :
  (0 <? length (runs st))%nat = true -> runs st !! 0%nat = Some (first_run st).
Proof.
  unfold first_run. destruct (runs st); [discriminate|reflexivity].
Qed.

Lemma lookup_In {A} (l : list A) (i : nat) (x : A) : l !! i = Some x -> In x l.
Proof. intros H. apply list_elem_of_In. eapply list_elem_of_lookup_2; eauto. Qed.

(** What the worker posts when everything succeeds. *)
Example happy_out :
  out (state_after happy)
  = [ MProgress "model" "active" "Загрузка из CDN...";
      MProgress "model" "active" "Загружено: 0.0% из 2.0 МБ";
      MProgress "model" "completed" "Модель загружена и закэширована";
      MProgress "decode" "active" "Декодирование...";
      MProgress "decode" "completed" "2 канал(а), 44100 Гц, 3.0 сек";
      MProgress "transcribe" "active" "Распознавание...";
      MProgress "transcribe" "completed" "Текст распознан";
      MResult "привет" (n 3) (n 44100) (n 2) "clip.wav" (n 2048) ].
Proof. vm_compute. reflexivity. Qed.

(** A decoding failure is posted with the prefix of decodeAudio. *)
Example undecodable_out :
  out (state_after undecodable)
  = [ MProgress "model" "active" "Загрузка из CDN...";
      MProgress "model" "completed" "Модель загружена и закэширована";
      MProgress "decode" "active" "Декодирование...";
      MError "Ошибка декодирования аудио: Unable to decode audio data" ].
Proof. vm_compute. reflexivity. Qed.

(** A cancellation during decoding: the decoding is still reported, then
    nothing. *)
Example cancelled_decoding_out :
  out (state_from (state_after cancelled_decoding) [Settle 0 (OAudio audio)])
  = [ MProgress "model" "active" "Загрузка из CDN...";
      MProgress "model" "completed" "Модель загружена и закэширована";
      MProgress "decode" "active" "Декодирование...";
      MLog "Обработка отменена";
      MProgress "decode" "completed" "2 канал(а), 44100 Гц, 3.0 сек" ].
Proof. vm_compute. reflexivity. Qed.

Example url_file_name_examples :
  url_file_name "https://host/a/clip.wav" = "clip.wav" /\
  url_file_name "https://host/a/" = "audio" /\
  split_slash "a/b//c" = ["a"; "b"; ""; "c"].
Proof. repeat split; reflexivity. Qed.

Lemma stages_in_order_witness :
  (forall m fd, type m = "transcribe" -> file m = Some fd ->
     exists st' r',
       handle (Deliver m) (state_after decoding) = Some st' /\
       runs st' !! length (runs (state_after decoding)) = Some r' /\
       point r' = AtImport fd /\ trail (hist r') = [(Model, true)]) /\
  trail (hist (first_run (state_after decoding))) `prefix_of` pipeline_order /\
  trail (hist (first_run (state_after decoding)))
  = [(Model, true); (Model, false); (Decode, true)] /\
  (cancelled (globals (state_after decoding)) = false ->
   forall a,
     exists st' r',
       handle (Settle 0 (OAudio a)) (state_after decoding) = Some st' /\
       runs st' !! 0%nat = Some r' /\ point r' = AtTranscribe clip a /\
       trail (hist r') = [(Model, true); (Model, false); (Decode, true);
                          (Decode, false); (Transcribe, true)]).
Proof.
  assert (Hreach : reachable (state_after decoding))
    by (apply reachable_after; vm_compute; reflexivity).
  assert (Hl : runs (state_after decoding) !! 0%nat
               = Some (first_run (state_after decoding)))
    by (apply first_run_lookup; vm_compute; reflexivity).
  assert (Hp : point (first_run (state_after decoding)) = AtDecode clip)
    by (vm_compute; reflexivity).
  destruct (@stages_in_order whole_numbers (state_after decoding) Hreach) as [Hreq Hrun].
  split; [exact Hreq|].
  destruct (Hrun 0%nat _ Hl) as [Hpre Hat]. split; [exact Hpre|].
  rewrite Hp in Hat. exact Hat.
Defined.

Lemma progress_messages_valid_witness :
  Forall progress_ok (out (state_after happy)).
Proof.
  apply (@progress_messages_valid whole_numbers (state_after happy)).
  apply reachable_after. vm_compute. reflexivity.
Defined.

Lemma stage_error_forwarded_witness :
  (exists d, handle (Uncaught "Unable to decode audio data") (state_after decoding)
             = Some {| globals := globals (state_after decoding);
                       out := out (state_after decoding) ++ [MError d];
                       runs := runs (state_after decoding) |}) /\
  (length (errors (hist (first_run (state_after decoding)))) <= 1)%nat /\
  exists st' r' new,
    handle (Settle 0 (ORejected "Unable to decode audio data")) (state_after decoding)
    = Some st' /\
    out st' = out (state_after decoding) ++ new /\
    List.filter is_error new
    = [MError ("Ошибка декодирования аудио: " +:+ "Unable to decode audio data")] /\
    runs st' !! 0%nat = Some r' /\ point r' = Done /\
    errors (hist r')
    = ["Ошибка декодирования аудио: " +:+ "Unable to decode audio data"].
Proof.
  assert (Hreach : reachable (state_after decoding))
    by (apply reachable_after; vm_compute; reflexivity).
  assert (Hl : runs (state_after decoding) !! 0%nat
               = Some (first_run (state_after decoding)))
    by (apply first_run_lookup; vm_compute; reflexivity).
  assert (Hp : point (first_run (state_after decoding)) = AtDecode clip)
    by (vm_compute; reflexivity).
  destruct (@stage_error_forwarded whole_numbers (state_after decoding)
              "Unable to decode audio data" Hreach) as [Hon Hrun].
  split; [exact Hon|].
  destruct (Hrun 0%nat _ Hl) as (Hle & _ & Hfwd). split; [exact Hle|].
  rewrite Hp in Hfwd. exact Hfwd.
Defined.

Lemma transcriber_called_once_witness :
  exists t st1,
    transcriber (globals (state_after decoding)) = Some t /\
    transcriber_calls (hist (first_run (state_after decoding))) = [] /\
    handle (Settle 0 (OAudio audio)) (state_after decoding) = Some st1 /\
    forall es st2 r2,
      exec es st1 = Some st2 -> runs st2 !! 0%nat = Some r2 ->
      transcriber_calls (hist r2)
      = [(t, getChannelData audio 0,
          {| chunk_length_s := 30;
             stride_length_s := 5;
             language := "ru";
             task := "transcribe";
             sampling_rate := sampleRate audio |})] /\
      forall text d sr k nm sz,
        In (Post (MResult text d sr k nm sz)) (hist r2) ->
        d = duration audio /\ sr = sampleRate audio /\ k = numberOfChannels audio.
Proof.
  apply (@transcriber_called_once whole_numbers (state_after decoding) 0
           (first_run (state_after decoding)) clip audio).
  - apply reachable_after. vm_compute. reflexivity.
  - apply first_run_lookup. vm_compute. reflexivity.
  - vm_compute. reflexivity.
  - vm_compute. reflexivity.
Defined.

(** Without a new request, the cancelled first run goes no further: a ping
    and a progress callback later, it has entered no stage and posted no
    result. *)
Lemma cancel_short_circuits_witness :
  cancelled (globals (state_from (state_after cancelled_alone) answered_late)) = true /\
  exists r',
    runs (state_from (state_after cancelled_alone) answered_late) !! 0%nat = Some r' /\
    grows_quietly (first_run (state_after cancelled_alone)) r'.
Proof.
  apply (@cancel_short_circuits whole_numbers answered_late
           (state_after cancelled_alone)).
  - vm_compute. reflexivity.
  - vm_compute. reflexivity.
  - apply exec_state_from. vm_compute. reflexivity.
  - apply first_run_lookup. vm_compute. reflexivity.
Defined.

(** C2 as stated fails: the first run is cancelled while its model loads, a
    second request resets the flag before the first run checks it, and the
    first run goes through decoding and transcription and posts a result. *)
Lemma overtaken_cancellation :
  exec asked_then_cancelled initial = Some (state_after asked_then_cancelled) /\
  cancelled (globals (state_after asked_then_cancelled)) = true /\
  exec asked_again (state_after asked_then_cancelled)
  = Some (state_from (state_after asked_then_cancelled) asked_again) /\
  In (Post (MResult "привет" (n 3) (n 44100) (n 2) "clip.wav" (n 2048)))
     (hist (first_run (state_from (state_after asked_then_cancelled) asked_again))) /\
  ~ grows_quietly (first_run (state_after asked_then_cancelled))
                  (first_run (state_from (state_after asked_then_cancelled) asked_again)) /\
  ~ @cancellation_always_final whole_numbers.
Proof.
  assert (H1 : exec asked_then_cancelled initial
               = Some (state_after asked_then_cancelled))
    by (apply (exec_state_from initial); vm_compute; reflexivity).
  assert (H2 : cancelled (globals (state_after asked_then_cancelled)) = true)
    by (vm_compute; reflexivity).
  assert (H3 : exec asked_again (state_after asked_then_cancelled)
               = Some (state_from (state_after asked_then_cancelled) asked_again))
    by (apply exec_state_from; vm_compute; reflexivity).
  assert (H4 : ~ grows_quietly
                 (first_run (state_after asked_then_cancelled))
                 (first_run (state_from (state_after asked_then_cancelled) asked_again))).
  { intros [extra [Heq Hq]].
    apply (f_equal (fun h => forallb starts_nothing (drop 3 h))) in Heq.
    assert (Hl : length (hist (first_run (state_after asked_then_cancelled))) = 3%nat)
      by (vm_compute; reflexivity).
    rewrite drop_app_length' in Heq by exact Hl.
    rewrite Hq in Heq. vm_compute in Heq. discriminate. }
  repeat split; try assumption.
  - apply (lookup_In _ 17). vm_compute. reflexivity.
  - intros Hall. apply H4.
    apply (Hall asked_then_cancelled asked_again
             (state_after asked_then_cancelled)
             (state_from (state_after asked_then_cancelled) asked_again)
             0%nat _ _ H1 H2);
      [|exact H3|]; apply first_run_lookup; vm_compute; reflexivity.
Qed.

Lemma flag_read_only_at_checks_witness :
  flag_blind (Settle 0 OModule) (state_after [Deliver (msg "transcribe")]).
Proof.
  apply (@flag_read_only_at_checks whole_numbers).
  vm_compute. reflexivity.
Defined.

(** C5 as stated fails: while the first run awaits the pipeline, the
    progress callback answers differently with the flag set (the run ends,
    nothing is posted) and with the flag clear (a progress message is posted
    and the run goes on waiting); this is no boundary between two awaited
    calls. *)
Lemma callback_reads_flag :
  at_flag_check (Progress 0 downloading) (state_after loading) = true /\
  ~ flag_blind (Progress 0 downloading) (state_after loading) /\
  ~ @flag_read_only_between_awaits whole_numbers.
Proof.
  assert (H : ~ flag_blind (Progress 0 downloading) (state_after loading)).
  { unfold flag_blind. intros Heq.
    apply (f_equal (fun s => match s with
                             | Some st => length (out st)
                             | None => 0%nat
                             end)) in Heq.
    vm_compute in Heq. discriminate. }
  split; [vm_compute; reflexivity|]. split; [exact H|].
  intros Hall. apply H, Hall. discriminate.
Qed.

Lemma result_text_unchanged_witness :
  exists new,
    out (state_from (state_after transcribing) [Settle 0 (OResult "привет")])
    = out (state_after transcribing) ++ new /\
    forall text d sr k nm sz,
      In (MResult text d sr k nm sz) new ->
      exists rid r fd a,
        @Settle whole_numbers 0 (OResult "привет") = Settle rid (OResult text) /\
        runs (state_after transcribing) !! rid = Some r /\
        point r = AtTranscribe fd a.
Proof.
  apply (@result_text_unchanged whole_numbers (Settle 0 (OResult "привет"))
           (state_after transcribing)).
  apply handle_state_from. vm_compute. reflexivity.
Defined.

Lemma cancelled_run_is_silent_witness :
  (exists r',
     runs (state_from (state_after cancelled_decoding) [Settle 0 (OAudio audio)]) !! 0%nat
     = Some r' /\
     point r' = Done /\ forallb quiet_msg (posts (hist r')) = true) /\
  (forall m, type m = "cancel" ->
     handle (Deliver m) (state_after cancelled_decoding)
     = Some {| globals := set_cancelled true (globals (state_after cancelled_decoding));
               out := out (state_after cancelled_decoding) ++ [MLog "Обработка отменена"];
               runs := runs (state_after cancelled_decoding) |}).
Proof.
  apply (@cancelled_run_is_silent whole_numbers (Settle 0 (OAudio audio))
           (state_after cancelled_decoding)).
  - apply reachable_after. vm_compute. reflexivity.
  - apply handle_state_from. vm_compute. reflexivity.
  - vm_compute. reflexivity.
Defined.

Lemma request_resets_flag_witness :
  cancelled (globals (state_from (state_after asked_then_cancelled)
                                 [Deliver (msg "transcribeUrl")])) = false /\
  (exists r,
     runs (state_from (state_after asked_then_cancelled) [Deliver (msg "transcribeUrl")])
     = runs (state_after asked_then_cancelled) ++ [r] /\ point r <> Done) /\
  handle (Deliver (msg "transcribeUrl"))
         (with_flag false (state_after asked_then_cancelled))
  = Some (state_from (state_after asked_then_cancelled) [Deliver (msg "transcribeUrl")]).
Proof.
  apply (@request_resets_flag whole_numbers (msg "transcribeUrl")
           (state_after asked_then_cancelled)).
  - vm_compute. reflexivity.
  - apply handle_state_from. vm_compute. reflexivity.
Defined.

Lemma ping_and_unknown_witness :
  handle (Deliver (msg "ping")) (state_after loading)
  = Some {| globals := globals (state_after loading);
            out := out (state_after loading) ++ [MPong];
            runs := runs (state_after loading) |} /\
  handle (Deliver (msg "status")) (state_after loading) = Some (state_after loading).
Proof.
  split.
  - apply (proj1 (@ping_and_unknown whole_numbers (msg "ping") (state_after loading))).
    reflexivity.
  - apply (proj2 (@ping_and_unknown whole_numbers (msg "status") (state_after loading)));
      discriminate.
Defined.

(** * The further properties on concrete executions *)

Lemma url_file_name_last_part_witness :
  url_file_name ("https://host/a" +:+ "/" +:+ "clip.wav") = "clip.wav".
Proof.
  apply (url_file_name_last_part "https://host/a" "clip.wav").
  reflexivity.
Defined.

Lemma url_file_name_no_slash_witness :
  url_file_name "clip.wav" = "clip.wav".
Proof.
  apply (url_file_name_no_slash "clip.wav"). reflexivity.
Defined.

Lemma one_terminal_message_witness :
  (length (results (hist (first_run (state_after happy)))) +
   length (errors (hist (first_run (state_after happy)))) <= 1)%nat /\
  (results (hist (first_run (state_after happy))) <> [] ->
   point (first_run (state_after happy)) = Done).
Proof.
  apply (@one_terminal_message whole_numbers (state_after happy) 0).
  - apply reachable_after. vm_compute. reflexivity.
  - apply first_run_lookup. vm_compute. reflexivity.
Defined.

Lemma transcribe_stage_calls_transcriber_witness :
  (needs_model (point (first_run (state_after transcribing))) = true ->
   transcriber (globals (state_after transcribing)) <> None) /\
  (In (Enter Transcribe) (hist (first_run (state_after transcribing))) ->
   length (transcriber_calls (hist (first_run (state_after transcribing)))) = 1%nat).
Proof.
  apply (@transcribe_stage_calls_transcriber whole_numbers (state_after transcribing) 0).
  - apply reachable_after. vm_compute. reflexivity.
  - apply first_run_lookup. vm_compute. reflexivity.
Defined.

Lemma audio_context_created_once_witness :
  audioContext (globals (state_from (state_after happy) second_request)) = Some 7%nat /\
  forall rid r',
    runs (state_from (state_after happy) second_request) !! rid = Some r' ->
    exists extra, hist r' = past (state_after happy) rid ++ extra /\
                  forallb (reuses_context 7) extra = true.
Proof.
  apply (@audio_context_created_once whole_numbers second_request (state_after happy)).
  - vm_compute. reflexivity.
  - apply exec_state_from. vm_compute. reflexivity.
Defined.

Lemma exec_or_stay {Q : Platform} (es : list (@Event Q)) (st : @State Q) :
  match exec es st with Some _ => true | None => false end = true ->
  exec es st = Some (match exec es st with Some st' => st' | None => st end).
Proof. destruct (exec es st); [reflexivity|discriminate]. Qed.

Lemma no_audio_reachable : reachable no_audio_state.
Proof.
  exists no_audio_events. apply (exec_or_stay no_audio_events initial).
  vm_compute. reflexivity.
Qed.

Lemma no_context_no_result_witness :
  audioContext (globals no_audio_state) = None /\
  results (hist no_audio_run) = [] /\
  transcriber_calls (hist no_audio_run) = [] /\
  (In (Enter Decode) (hist no_audio_run) ->
   point no_audio_run = Done /\
   errors (hist no_audio_run)
   = ["Ошибка декодирования аудио: " +:+ "OfflineAudioContext is not a constructor"]).
Proof.
  apply (@no_context_no_result no_audio "OfflineAudioContext is not a constructor"
           no_audio_state 0).
  - reflexivity.
  - exact no_audio_reachable.
  - vm_compute. reflexivity.
Defined.

Lemma progress_in_order_witness :
  exists k,
    progress_trail (hist (first_run (state_after happy)))
    `prefix_of` progress_script (came_from_url (hist (first_run (state_after happy)))) k.
Proof.
  apply (@progress_in_order whole_numbers (state_after happy) 0).
  - apply reachable_after. vm_compute. reflexivity.
  - apply first_run_lookup. vm_compute. reflexivity.
Defined.

Lemma empty_text_is_silent_witness :
  out (state_from (state_after transcribing) [Settle 0 (OResult "")])
  = out (state_after transcribing)
    ++ [MProgress "transcribe" "completed" "Текст распознан"] /\
  exists r',
    runs (state_from (state_after transcribing) [Settle 0 (OResult "")]) !! 0%nat = Some r' /\
    point r' = Done /\ results (hist r') = [] /\ errors (hist r') = [].
Proof.
  apply (@empty_text_is_silent whole_numbers (state_after transcribing)).
  - apply reachable_after. vm_compute. reflexivity.
  - apply handle_state_from. vm_compute. reflexivity.
Defined.

Lemma other_progress_ignored_witness :
  state_from (state_after loading) [Progress 0 initiating] = state_after loading.
Proof.
  apply (@other_progress_ignored whole_numbers (state_after loading) _ 0 initiating).
  - vm_compute. reflexivity.
  - vm_compute. reflexivity.
  - apply handle_state_from. vm_compute. reflexivity.
Defined.

Lemma failed_download_reported_witness :
  globals (state_from (state_after downloading_url) [Settle 0 (OResponse not_found)])
  = globals (state_after downloading_url) /\
  out (state_from (state_after downloading_url) [Settle 0 (OResponse not_found)])
  = out (state_after downloading_url)
    ++ [MError ("Не удалось загрузить файл: " +:+ num_str whole_numbers (status not_found))] /\
  exists r',
    runs (state_from (state_after downloading_url) [Settle 0 (OResponse not_found)]) !! 0%nat
    = Some r' /\
    point r' = Done /\
    hist r' = hist (first_run (state_after downloading_url)) ++
              [Post (MError ("Не удалось загрузить файл: "
                             +:+ num_str whole_numbers (status not_found)))] /\
    trail (hist r') = [].
Proof.
  apply (@failed_download_reported whole_numbers (state_after downloading_url) _ 0
           (first_run (state_after downloading_url)) "https://host/a/clip.wav" not_found).
  - apply reachable_after. vm_compute. reflexivity.
  - apply first_run_lookup. vm_compute. reflexivity.
  - vm_compute. reflexivity.
  - reflexivity.
  - apply handle_state_from. vm_compute. reflexivity.
Defined.

Lemma pongs_and_logs_counted_witness :
  count_out is_pong (state_after chatter)
  = (count_out is_pong (@initial whole_numbers) + deliveries "ping" chatter)%nat /\
  count_out is_log (state_after chatter)
  = (count_out is_log (@initial whole_numbers) + deliveries "cancel" chatter)%nat.
Proof.
  apply (@pongs_and_logs_counted whole_numbers chatter initial).
  apply (exec_state_from initial). vm_compute. reflexivity.
Defined.

Lemma undisturbed_file_succeeds_witness :
  exists st',
    exec (undisturbed_file 0 clip 5 audio "привет") initial = Some st' /\
    out st' = [] ++ success_messages audio "привет" "clip.wav" (n 2048) /\
    globals st' = {| transcriber := Some 5%nat; audioContext := Some 7%nat;
                     cancelled := false |}.
Proof.
  apply (@undisturbed_file_succeeds whole_numbers initial clip 5 audio "привет" 7).
  - right. split; reflexivity.
  - discriminate.
Defined.

Lemma undisturbed_url_succeeds_witness :
  exists st',
    exec (undisturbed_url 0 "https://host/a/clip.wav" found body 5 audio "привет") initial
    = Some st' /\
    out st' = [] ++ MProgress "decode" "active" "Загрузка аудио..." ::
              success_messages audio "привет"
                (url_file_name "https://host/a/clip.wav") (byteLength body) /\
    globals st' = {| transcriber := Some 5%nat; audioContext := Some 7%nat;
                     cancelled := false |}.
Proof.
  apply (@undisturbed_url_succeeds whole_numbers initial
           "https://host/a/clip.wav" found body 5 audio "привет" 7).
  - right. split; reflexivity.
  - discriminate.
  - reflexivity.
Defined.
